(** * Statistics collectors of [client/commands/statistics.py]

    A shallow embedding of the annotation-coverage collector, the
    suppression-marker collector, the path resolver and the [_run] pipeline,
    together with the properties the specification states about them.

    Conventions of the embedding:
    - a Python [int] is a [Z];
    - a Python [str] whose characters the code reads by class, the text of a
      comment and the codes cut out of it, and with them every key of a
      [dict], is the list of its code points, a [list N]; [str] reads an
      ASCII literal as such a list;
    - file names, file contents and the text of the report are [string]s: on
      them the code compares, splits, replaces and joins only;
    - the regular-expression class [\d] of a [str] pattern is the decimal
      digits of the interpreter's Unicode table: the ten ASCII digits below
      code point 128 in every version of the table, and above it what the
      table says, [decimal], which the definitions take as an argument;
    - a Python [dict] is an association list in insertion order with pairwise
      distinct keys (the order is what [json.dumps] prints);
    - objects that are shared by reference (the [dict] objects) live in a heap
      indexed by locations; objects nobody aliases are plain records threaded
      through the calls. *)

From Stdlib Require Import ZArith Lia List String Ascii Bool DecimalString.
From stdpp Require Import base option list gmap strings pretty.

Set Warnings "-register-all".

#[local] Arguments String.append !s1 s2 : simpl nomatch.

Local Open Scope Z_scope.
Local Open Scope string_scope.
Local Open Scope list_scope.

(** ** Text *)

(** The code points of an ASCII literal. *)
Definition str (s : string) : list N := map N_of_ascii (list_ascii_of_string s).

Fixpoint str_eqb (a b : list N) : bool :=
  match a, b with
  | [], [] => true
  | x :: a', y :: b' => (x =? y)%N && str_eqb a' b'
  | _, _ => false
  end.

(** ** The part of the concrete syntax tree the collectors read *)

Module cst.

Record Annotation := { annotation_source : string }.

Record Param := { name : string; annotation : option Annotation }.

Module Parameters.
Record t := { params : list Param; default_params : list Param }.
End Parameters.

Record FunctionDef := { returns : option Annotation; params : Parameters.t }.

(** The kind of a node with the attributes a handler reads. *)
Inductive NodeKind :=
  | KFunctionDef (node : FunctionDef)
  | KAssign
  | KAnnAssign
  | KComment (value : list N)
  | KOther.

(** A node and its children in source order. *)
Inductive CSTNode := Node (kind : NodeKind) (children : list CSTNode).

(** [node.visit(visitor)]: the handler of the node's kind runs first, then
    the children are visited in order (no handler of this file returns
    [False], so children are never skipped). *)
Fixpoint visit {S : Type} (on_visit : NodeKind -> S -> S) (n : CSTNode) (s : S) : S :=
  match n with
  | Node k cs => fold_left (fun acc c => visit on_visit c acc) cs (on_visit k s)
  end.

(** The node kinds met by [visit], in the order their handlers fire. *)
Fixpoint preorder (n : CSTNode) : list NodeKind :=
  match n with
  | Node k cs => k :: flat_map preorder cs
  end.

End cst.

(** ** AnnotationCountCollector *)

Module AnnotationCountCollector.

Record t := {
  return_count : Z;
  annotated_return_count : Z;
  globals_count : Z;
  annotated_globals_count : Z;
  parameter_count : Z;
  annotated_parameter_count : Z
  }.

(** [__init__] with every argument at its default. *)
Definition init : t :=
  {| return_count := 0; annotated_return_count := 0;
     globals_count := 0; annotated_globals_count := 0;
     parameter_count := 0; annotated_parameter_count := 0 |}.

Definition add_return_count (d : Z) (self : t) : t :=
  {| return_count := return_count self + d;
     annotated_return_count := annotated_return_count self;
     globals_count := globals_count self;
     annotated_globals_count := annotated_globals_count self;
     parameter_count := parameter_count self;
     annotated_parameter_count := annotated_parameter_count self |}.

Definition add_annotated_return_count (d : Z) (self : t) : t :=
  {| return_count := return_count self;
     annotated_return_count := annotated_return_count self + d;
     globals_count := globals_count self;
     annotated_globals_count := annotated_globals_count self;
     parameter_count := parameter_count self;
     annotated_parameter_count := annotated_parameter_count self |}.

Definition add_globals_count (d : Z) (self : t) : t :=
  {| return_count := return_count self;
     annotated_return_count := annotated_return_count self;
     globals_count := globals_count self + d;
     annotated_globals_count := annotated_globals_count self;
     parameter_count := parameter_count self;
     annotated_parameter_count := annotated_parameter_count self |}.

Definition add_annotated_globals_count (d : Z) (self : t) : t :=
  {| return_count := return_count self;
     annotated_return_count := annotated_return_count self;
     globals_count := globals_count self;
     annotated_globals_count := annotated_globals_count self + d;
     parameter_count := parameter_count self;
     annotated_parameter_count := annotated_parameter_count self |}.

Definition add_parameter_count (d : Z) (self : t) : t :=
  {| return_count := return_count self;
     annotated_return_count := annotated_return_count self;
     globals_count := globals_count self;
     annotated_globals_count := annotated_globals_count self;
     parameter_count := parameter_count self + d;
     annotated_parameter_count := annotated_parameter_count self |}.

Definition add_annotated_parameter_count (d : Z) (self : t) : t :=
  {| return_count := return_count self;
     annotated_return_count := annotated_return_count self;
     globals_count := globals_count self;
     annotated_globals_count := annotated_globals_count self;
     parameter_count := parameter_count self;
     annotated_parameter_count := annotated_parameter_count self + d |}.

(** [build_json]: the six counters under their names, in this order. *)
Definition build_json (self : t) : list (list N * Z) :=
  [ (str "return_count", return_count self);
    (str "annotated_return_count", annotated_return_count self);
    (str "globals_count", globals_count self);
    (str "annotated_globals_count", annotated_globals_count self);
    (str "parameter_count", parameter_count self);
    (str "annotated_parameter_count", annotated_parameter_count self) ].

(** The body of the loop of [_check_parameter_annotations]. *)
Definition check_parameter (self : t) (parameter : cst.Param) : t :=
  let self := add_parameter_count 1 self in
  match cst.annotation parameter with
  | Some _ => add_annotated_parameter_count 1 self
  | None => self
  end.

Definition _check_parameter_annotations (self : t) (parameters : list cst.Param) : t :=
  fold_left check_parameter parameters self.

(** The first three lines of [visit_FunctionDef]. *)
Definition count_return (self : t) (node : cst.FunctionDef) : t :=
  let self := add_return_count 1 self in
  match cst.returns node with
  | Some _ => add_annotated_return_count 1 self
  | None => self
  end.

Definition visit_FunctionDef (self : t) (node : cst.FunctionDef) : t :=
  let self := count_return self node in
  let self :=
    _check_parameter_annotations self
      (cst.Parameters.default_params (cst.params node)) in
  _check_parameter_annotations self (cst.Parameters.params (cst.params node)).

Definition visit_Assign (self : t) : t := add_globals_count 1 self.

Definition visit_AnnAssign (self : t) : t :=
  add_annotated_globals_count 1 (add_globals_count 1 self).

(** Dispatch on the node kind; kinds without a handler do nothing. *)
Definition on_visit (k : cst.NodeKind) (self : t) : t :=
  match k with
  | cst.KFunctionDef node => visit_FunctionDef self node
  | cst.KAssign => visit_Assign self
  | cst.KAnnAssign => visit_AnnAssign self
  | cst.KComment _ | cst.KOther => self
  end.

(** One invocation of a visit handler. *)
Inductive Event :=
  | OnFunctionDef (node : cst.FunctionDef)
  | OnAssign
  | OnAnnAssign.

Definition handle (self : t) (e : Event) : t :=
  match e with
  | OnFunctionDef node => visit_FunctionDef self node
  | OnAssign => visit_Assign self
  | OnAnnAssign => visit_AnnAssign self
  end.

Definition drive (events : list Event) (self : t) : t :=
  fold_left handle events self.

(** Number of parameters of a list that carry an annotation. *)
Definition annotated_params (parameters : list cst.Param) : nat :=
  length (filter (fun p => is_Some (cst.annotation p)) parameters).

Definition has_annotation (a : option cst.Annotation) : Z :=
  match a with Some _ => 1 | None => 0 end.

Definition coverage_invariant (self : t) : Prop :=
  annotated_return_count self <= return_count self /\
  annotated_parameter_count self <= parameter_count self /\
  annotated_globals_count self <= globals_count self.

End AnnotationCountCollector.

(** [_count]: every tree is visited once, in order, by the same collector;
    [on_visit] is the collector's dispatch and [S] the state it changes. *)
Definition _count {S : Type} (on_visit : cst.NodeKind -> S -> S)
    (paths : list cst.CSTNode) (collector : S) : S :=
  fold_left (fun c path => cst.visit on_visit path c) paths collector.

Definition _count_annotations (paths : list cst.CSTNode)
    (collector : AnnotationCountCollector.t) : AnnotationCountCollector.t :=
  _count AnnotationCountCollector.on_visit paths collector.

(** ** Exceptions *)

Inductive exn :=
  | KeyError (key : list N)
  | ReadError
  | ParseError
  | PrepareError
  | InvalidReference.

Inductive result (A : Type) :=
  | Ok (a : A)
  | Raise (e : exn).

Arguments Ok {A} a.
Arguments Raise {A} e.

#[global] Instance result_ret : MRet result := fun A a => Ok a.

#[global] Instance result_bind : MBind result := fun A B f r =>
  match r with
  | Ok a => f a
  | Raise e => Raise e
  end.

(** ** Strings and the regular expression of the suppression marker *)

(** [\d] on one code point; [decimal] is the interpreter's table above the
    ASCII range. *)
Definition is_digit (decimal : N -> bool) (c : N) : bool :=
  if (c <? 128)%N then (48 <=? c)%N && (c <=? 57)%N else decimal c.

Fixpoint all_digits (decimal : N -> bool) (s : list N) : bool :=
  match s with
  | [] => true
  | c :: s' => is_digit decimal c && all_digits decimal s'
  end.

(** [s] without its prefix [p], or [None] when [s] does not start with [p]. *)
Fixpoint strip_prefix (p s : string) : option string :=
  match p with
  | EmptyString => Some s
  | String a p' =>
      match s with
      | EmptyString => None
      | String b s' => if Ascii.eqb a b then strip_prefix p' s' else None
      end
  end.

(** The same on code points. *)
Fixpoint strip_chars (p s : list N) : option (list N) :=
  match p with
  | [] => Some s
  | a :: p' =>
      match s with
      | [] => None
      | b :: s' => if (a =? b)%N then strip_chars p' s' else None
      end
  end.

(** The items a pattern is a sequence of: a run of literal characters, and the
    capturing group around [\d*]. *)
Inductive re_item :=
  | Lit (s : list N)
  | DigitsGroup.

(** The greedy [\d*] of a backtracking matcher: take one more digit while the
    rest of the pattern, run as the continuation [k] on what was taken and
    what is left, finds a match; give the digit back otherwise. *)
Fixpoint greedy_digits {R : Type} (decimal : N -> bool)
    (k : list N -> list N -> option R) (taken s : list N) : option R :=
  match s with
  | [] => k taken s
  | c :: s' =>
      if is_digit decimal c then
        match greedy_digits decimal k (taken ++ [c]) s' with
        | Some r => Some r
        | None => k taken s
        end
      else k taken s
  end.

(** Match [pattern] at the start of [s]; the result is the list of the groups
    captured so far, in order. *)
Fixpoint re_match_from (decimal : N -> bool) (pattern : list re_item)
    (groups : list (list N)) (s : list N) : option (list (list N)) :=
  match pattern with
  | [] => Some groups
  | Lit l :: pattern' =>
      match strip_chars l s with
      | Some s' => re_match_from decimal pattern' groups s'
      | None => None
      end
  | DigitsGroup :: pattern' =>
      greedy_digits decimal
        (fun g s' => re_match_from decimal pattern' (groups ++ [g]) s') [] s
  end.

(** [re.match(pattern, s)]: anchored at the start of [s], free at its end. *)
Definition re_match (decimal : N -> bool) (pattern : list re_item) (s : list N)
    : option (list (list N)) :=
  re_match_from decimal pattern [] s.

(** [match.group(1)]. *)
Definition group1 (groups : list (list N)) : list N := nth 0 groups [].

(** The longest run of digits at the start of [s], and what follows it. *)
Fixpoint digits_prefix (decimal : N -> bool) (s : list N) : list N :=
  match s with
  | [] => []
  | c :: s' => if is_digit decimal c then c :: digits_prefix decimal s' else []
  end.

Fixpoint after_digits (decimal : N -> bool) (s : list N) : list N :=
  match s with
  | [] => []
  | c :: s' => if is_digit decimal c then after_digits decimal s' else s
  end.

(** The text of a suppression marker whose digit group is [g]. *)
Definition marker (g : list N) : list N := str "# pyre-fixme[" ++ g ++ str "]:".

(** A comment begins with a marker of digit group [g]. *)
Definition begins_with_marker (decimal : N -> bool) (value g : list N) : Prop :=
  all_digits decimal g = true /\ exists rest, value = marker g ++ rest.

(** The decimal digits above the ASCII range of version 14.0 of the Unicode
    table, one of the tables [decimal] stands for: the first code point of
    every run of them, and the length of the run. *)
Definition decimal_runs_14 : list (N * N) :=
  [ (1632, 10); (1776, 10); (1984, 10); (2406, 10); (2534, 10); (2662, 10);
    (2790, 10); (2918, 10); (3046, 10); (3174, 10); (3302, 10); (3430, 10);
    (3558, 10); (3664, 10); (3792, 10); (3872, 10); (4160, 10); (4240, 10);
    (6112, 10); (6160, 10); (6470, 10); (6608, 10); (6784, 10); (6800, 10);
    (6992, 10); (7088, 10); (7232, 10); (7248, 10); (42528, 10); (43216, 10);
    (43264, 10); (43472, 10); (43504, 10); (43600, 10); (44016, 10);
    (65296, 10); (66720, 10); (68912, 10); (69734, 10); (69872, 10);
    (69942, 10); (70096, 10); (70384, 10); (70736, 10); (70864, 10);
    (71248, 10); (71360, 10); (71472, 10); (71904, 10); (72016, 10);
    (72784, 10); (73040, 10); (73120, 10); (92768, 10); (92864, 10);
    (93008, 10); (120782, 50); (123200, 10); (123632, 10); (125264, 10);
    (130032, 10) ]%N.

Definition decimal_14 (c : N) : bool :=
  existsb (fun '(first, n) => (first <=? c)%N && (c <? first + n)%N) decimal_runs_14.

(** ** Dictionaries and the heap *)

(** A [dict] object; [default_factory] tells a [defaultdict(int)] from a plain
    [dict]. *)
Record PyDict := {
  default_factory : bool;
  items : list (list N * Z)
}.

Fixpoint items_get (key : list N) (its : list (list N * Z)) : option Z :=
  match its with
  | [] => None
  | (k, v) :: its' => if str_eqb key k then Some v else items_get key its'
  end.

(** Assignment to a key: in place when the key is there, appended when not. *)
Fixpoint items_set (key : list N) (value : Z) (its : list (list N * Z))
    : list (list N * Z) :=
  match its with
  | [] => [(key, value)]
  | (k, v) :: its' =>
      if str_eqb key k then (k, value) :: its'
      else (k, v) :: items_set key value its'
  end.

(** [d[key]]: a [defaultdict(int)] stores 0 under a missing key and returns it,
    a plain [dict] raises. *)
Definition getitem (d : PyDict) (key : list N) : result (Z * PyDict) :=
  match items_get key (items d) with
  | Some v => Ok (v, d)
  | None =>
      if default_factory d then
        Ok (0, {| default_factory := true; items := items_set key 0 (items d) |})
      else Raise (KeyError key)
  end.

(** [d[key] = value]. *)
Definition setitem (d : PyDict) (key : list N) (value : Z) : PyDict :=
  {| default_factory := default_factory d; items := items_set key value (items d) |}.

(** The value a counter map holds for a code: 0 for a code never touched. *)
Definition counter (d : PyDict) (key : list N) : Z :=
  default 0 (items_get key (items d)).

(** What [d[key] += 1] leaves in a [defaultdict(int)] whose items are those of
    [d]: the counter of [key] one higher, in place or appended. *)
Definition incremented (d : PyDict) (key : list N) : PyDict :=
  {| default_factory := true;
     items := items_set key (counter d key + 1) (items d) |}.

Abbreviation loc := positive (only parsing).
Abbreviation heap := (gmap positive PyDict) (only parsing).

(** A new object: a location the heap does not hold yet. *)
Definition alloc (d : PyDict) (h : heap) : positive * heap :=
  let l := fresh (dom h) in (l, <[l := d]> h).

(** ** FixmeCountCollector *)

Module FixmeCountCollector.

Record t := {
  fixme_counts : loc;
  fixme_regex : list re_item
}.

(** The object [defaultdict(int)] of the signature of [__init__]: evaluated
    once, when the [def] statement runs, and bound to every call that passes
    no argument. *)
Definition default_fixme_counts : loc := 1%positive.

(** The heap once the class statement has run. *)
Definition module_heap : heap :=
  {[ default_fixme_counts := {| default_factory := true; items := [] |} ]}.

(** The pattern of [self.fixme_regex]: the literal [# pyre-fixme] and an opening
    bracket, a captured greedy run of digits, a closing bracket and a colon. *)
Definition the_fixme_regex : list re_item :=
  [Lit (str "# pyre-fixme["); DigitsGroup; Lit (str "]:")].

Definition init (fixme_counts : option loc) : t :=
  {| fixme_counts := default default_fixme_counts fixme_counts;
     fixme_regex := the_fixme_regex |}.

(** [self.fixme_counts[key] += 1]: read, then store. *)
Definition increment (self : t) (key : list N) (h : heap) : result heap :=
  match h !! fixme_counts self with
  | None => Raise InvalidReference
  | Some d =>
      '(v, d) ← getitem d key;
      Ok (<[fixme_counts self := setitem d key (v + 1)]> h)
  end.

Definition visit_Comment (decimal : N -> bool) (self : t) (value : list N) (h : heap)
    : result heap :=
  match re_match decimal (fixme_regex self) value with
  | Some groups => increment self (group1 groups) h
  | None => Ok h
  end.

(** [dict(self.fixme_counts)]: a new plain [dict] with the same items. *)
Definition build_json (self : t) (h : heap) : result (loc * heap) :=
  match h !! fixme_counts self with
  | None => Raise InvalidReference
  | Some d => Ok (alloc {| default_factory := false; items := items d |} h)
  end.

(** Dispatch on the node kind; an exception raised earlier ends the visit. *)
Definition on_visit (decimal : N -> bool) (self : t) (k : cst.NodeKind)
    (r : result heap) : result heap :=
  h ← r;
  match k with
  | cst.KComment value => visit_Comment decimal self value h
  | _ => Ok h
  end.

End FixmeCountCollector.

(** [_count] for the suppression collector: the state is the heap, or the
    exception that ended the visit. *)
Definition _count_fixmes (decimal : N -> bool) (paths : list cst.CSTNode)
    (collector : FixmeCountCollector.t) (h : heap) : result heap :=
  _count (FixmeCountCollector.on_visit decimal collector) paths (Ok h).

(** A file whose comments are the four of the specification's example. *)
Definition four_comments : cst.CSTNode :=
  cst.Node cst.KOther
    [ cst.Node (cst.KComment (str "# pyre-fixme[7]:")) [];
      cst.Node (cst.KComment (str "# pyre-fixme[7]:")) [];
      cst.Node (cst.KComment (str "# pyre-fixme[35]:")) [];
      cst.Node (cst.KComment (str "# not-a-fixme")) [] ].

(** ** [str] methods *)

Definition startswith (s p : string) : bool := bool_decide (is_Some (strip_prefix p s)).

(** [s.replace(old, new)], every occurrence of [old] from the left, without
    overlap. [skip] counts the characters of an occurrence still to pass. *)
Fixpoint replace_from (old new : string) (skip : nat) (s : string) : string :=
  match s with
  | EmptyString => EmptyString
  | String c s' =>
      match skip with
      | S n => replace_from old new n s'
      | O =>
          if startswith s old
          then new +:+ replace_from old new (String.length old - 1) s'
          else String c (replace_from old new 0 s')
      end
  end.

(** An empty [old] matches between any two characters and at both ends. *)
Fixpoint intersperse (new s : string) : string :=
  match s with
  | EmptyString => new
  | String c s' => new +:+ String c (intersperse new s')
  end.

Definition str_replace (s old new : string) : string :=
  match old with
  | EmptyString => intersperse new s
  | String _ _ => replace_from old new 0 s
  end.

(** [s.split("/")]. *)
Fixpoint split_slash (s : string) : list string :=
  match s with
  | EmptyString => [EmptyString]
  | String c s' =>
      if Ascii.eqb c "/" then EmptyString :: split_slash s'
      else match split_slash s' with
           | x :: xs => String c x :: xs
           | [] => [String c EmptyString]
           end
  end.

(** [s.lstrip("/")]. *)
Fixpoint lstrip_slash (s : string) : string :=
  match s with
  | String c s' => if Ascii.eqb c "/" then lstrip_slash s' else s
  | EmptyString => EmptyString
  end.

(** [s] without the suffix [suffix] when it ends with it, [s] otherwise. *)
Fixpoint remove_suffix (suffix s : string) : string :=
  if String.eqb s suffix then EmptyString
  else match s with
       | EmptyString => EmptyString
       | String c s' => String c (remove_suffix suffix s')
       end.

(** ** [pathlib.Path] on a POSIX system *)

Module Path.

(** [root] is empty, one slash or two slashes; [parts] are the components
    after the root. *)
Record t := { root : string; parts : list string }.

#[global] Instance eq_dec : EqDecision t.
Proof. solve_decision. Defined.

Definition splitroot (part : string) : string * string :=
  match part with
  | String "/" _ =>
      let stripped_part := lstrip_slash part in
      if (String.length part - String.length stripped_part =? 2)%nat
      then ("//", stripped_part)
      else ("/", stripped_part)
  | _ => (EmptyString, part)
  end.

Definition keep_part (x : string) : bool :=
  negb (String.eqb x EmptyString) && negb (String.eqb x ".").

(** [Path(s)]. *)
Definition of_string (s : string) : t :=
  let '(root, rel) := splitroot s in
  {| root := root; parts := filter (fun x => keep_part x = true) (split_slash rel) |}.

(** [self / s]: an anchored [s] replaces [self]. *)
Definition joinpath (self : t) (s : string) : t :=
  let other := of_string s in
  match root other with
  | EmptyString => {| root := root self; parts := parts self ++ parts other |}
  | String _ _ => other
  end.

(** [self.name]. *)
Definition name (self : t) : string := List.last (parts self) EmptyString.

End Path.

(** ** The path resolver *)

Definition configuration_marker : string := ".pyre_configuration.local".

(** Lines 133-138 of [_find_paths]; [cwd] is what [Path.cwd()] returns. *)
Definition pyre_configuration_directory (cwd : Path.t) (local_configuration : string)
    : Path.t :=
  match local_configuration with
  | String _ _ =>
      Path.of_string (str_replace local_configuration configuration_marker EmptyString)
  | EmptyString => cwd
  end.

Definition _find_paths (cwd : Path.t) (local_configuration : string)
    (paths : list string) : list Path.t :=
  let pyre_configuration_directory :=
    pyre_configuration_directory cwd local_configuration in
  match paths with
  | _ :: _ => map (fun path => Path.joinpath pyre_configuration_directory path) paths
  | [] => [pyre_configuration_directory]
  end.

(** ** The file system and the parser, as the pipeline sees them *)

Record World := {
  cwd : Path.t;
  prepare : result unit;
  is_dir : Path.t -> bool;
  glob_py : Path.t -> list Path.t;
  read_text : Path.t -> result string;
  parse_module : string -> result cst.CSTNode
}.

(** [glob_py w d] is what [d.glob("**/*.py")] yields. *)
Definition _get_paths (w : World) (target_directory : Path.t) : list Path.t :=
  filter (fun path => negb (startswith (Path.name path) "__")
                      && negb (startswith (Path.name path) ".") = true)
         (glob_py w target_directory).

Definition _parse_file (w : World) (path : Path.t) : result cst.CSTNode :=
  text ← read_text w path; parse_module w text.

Definition _parse_directory (w : World) (directory : Path.t) : result (list cst.CSTNode) :=
  fold_left (fun acc file =>
               new_files ← acc;
               tree ← _parse_file w file;
               Ok (new_files ++ [tree]))
            (_get_paths w directory) (Ok []).

Definition _parse_paths (w : World) (paths : list Path.t) : result (list cst.CSTNode) :=
  fold_left (fun acc path =>
               parsed_paths ← acc;
               if is_dir w path then
                 parsed_directory_paths ← _parse_directory w path;
                 Ok (parsed_paths ++ parsed_directory_paths)
               else
                 tree ← _parse_file w path;
                 Ok (parsed_paths ++ [tree]))
            paths (Ok []).

(** ** [json.dumps] on the report *)

Definition double_quote : ascii := "034"%char.
Definition backslash : ascii := "092"%char.

Definition hex_digit (n : nat) : ascii :=
  if (n <? 10)%nat then ascii_of_nat (48 + n) else ascii_of_nat (87 + n).

(** Four lower-case hexadecimal digits, as the format [04x] writes a number
    below 65536. *)
Definition hex4 (n : N) : string :=
  String (hex_digit (N.to_nat (n / 4096 mod 16)))
    (String (hex_digit (N.to_nat (n / 256 mod 16)))
       (String (hex_digit (N.to_nat (n / 16 mod 16)))
          (String (hex_digit (N.to_nat (n mod 16))) EmptyString))).

(** One character of a key, as [ensure_ascii] writes it: a code point above
    the Basic Multilingual Plane is written as its two surrogates. *)
Definition json_escape (c : N) : string :=
  if (c =? 34)%N then String backslash (String double_quote EmptyString)
  else if (c =? 92)%N then String backslash (String backslash EmptyString)
  else if (c =? 8)%N then String backslash "b"
  else if (c =? 12)%N then String backslash "f"
  else if (c =? 10)%N then String backslash "n"
  else if (c =? 13)%N then String backslash "r"
  else if (c =? 9)%N then String backslash "t"
  else if (c <? 32)%N || (126 <? c)%N then
    if (c <? 65536)%N then String backslash ("u" +:+ hex4 c)
    else
      let n := (c - 65536)%N in
      String backslash ("u" +:+ hex4 (55296 + N.land (n / 1024) 1023))
      +:+ String backslash ("u" +:+ hex4 (56320 + N.land n 1023))
  else String (ascii_of_N c) EmptyString.

Fixpoint json_escape_all (s : list N) : string :=
  match s with
  | [] => EmptyString
  | c :: s' => json_escape c +:+ json_escape_all s'
  end.

Definition json_str (s : list N) : string :=
  String double_quote (json_escape_all s +:+ String double_quote EmptyString).

Definition json_int (z : Z) : string :=
  DecimalString.NilZero.string_of_int (Z.to_int z).

Definition json_object (members : list (list N * string)) : string :=
  "{" +:+ String.concat ", " (map (fun '(k, v) => json_str k +:+ ": " +:+ v) members) +:+ "}".

Definition json_counts (d : list (list N * Z)) : string :=
  json_object (map (fun '(k, v) => (k, json_int v)) d).

Definition json_dumps (as_json : list (list N * list (list N * Z))) : string :=
  json_object (map (fun '(k, d) => (k, json_counts d)) as_json).

(** ** The command *)

Record Statistics := {
  _local_configuration : string;
  _filter_paths : list string
}.

(** [_run]: the result is the text written to [log.stdout]. *)
Definition _run (decimal : N -> bool) (w : World) (self : Statistics) (h : heap)
    : result (string * heap) :=
  _ ← prepare w;
  let paths := _find_paths (cwd w) (_local_configuration self) (_filter_paths self) in
  parsed_paths ← _parse_paths w paths;
  let annotations := _count_annotations parsed_paths AnnotationCountCollector.init in
  let fixmes := FixmeCountCollector.init None in
  h ← _count_fixmes decimal parsed_paths fixmes h;
  let annotations_json := AnnotationCountCollector.build_json annotations in
  '(l, h) ← FixmeCountCollector.build_json fixmes h;
  match h !! l with
  | None => Raise InvalidReference
  | Some fixmes_json =>
      Ok (json_dumps
            [ (str "annotations", annotations_json);
              (str "fixmes", items fixmes_json) ],
          h)
  end.

(** ** Helpers of the statements *)

(** Every occurrence of the configuration marker in [s] is at the end of [s]. *)
Definition only_trailing_marker (s : string) : Prop :=
  forall a b, s = a +:+ configuration_marker +:+ b -> b = EmptyString.

(** The same, as a check that runs: wherever the marker starts in [s], what
    is left of [s] is the marker and nothing more. *)
Fixpoint only_trailing_markerb (s : string) : bool :=
  (if startswith s configuration_marker then String.eqb s configuration_marker else true)
  && match s with
     | EmptyString => true
     | String _ s' => only_trailing_markerb s'
     end.

(** A world with one file, [a.py], whose only line is a suppression comment. *)
Definition one_fixme_file : cst.CSTNode :=
  cst.Node cst.KOther [cst.Node (cst.KComment (str "# pyre-fixme[7]:")) []].

Definition one_fixme_world : World :=
  {| cwd := Path.of_string "/repo";
     prepare := Ok tt;
     is_dir := fun _ => false;
     glob_py := fun _ => [];
     read_text := fun path =>
       if decide (path = Path.of_string "/repo/a.py") then Ok "# pyre-fixme[7]:"
       else Raise ReadError;
     parse_module := fun text =>
       if String.eqb text "# pyre-fixme[7]:" then Ok one_fixme_file
       else Raise ParseError |}.

Definition one_fixme_command : Statistics :=
  {| _local_configuration := EmptyString; _filter_paths := ["a.py"] |}.

(** The report with all-zero annotation counters and the given suppression
    counts. *)
Definition report_of_fixmes (fixmes : list (list N * Z)) : string :=
  json_dumps
    [ (str "annotations",
       AnnotationCountCollector.build_json AnnotationCountCollector.init);
      (str "fixmes", fixmes) ].

(** The end-to-end scenario of the specification: a directory with [a.py]
    (an assignment, and a function with a return annotation and one bare
    parameter) and [b.py] (a suppression comment and an annotated
    assignment), beside an [__init__.py] that the resolver skips. *)
Definition a_py : cst.CSTNode :=
  cst.Node cst.KOther
    [ cst.Node cst.KAssign [];
      cst.Node
        (cst.KFunctionDef
           {| cst.returns := Some {| cst.annotation_source := "int" |};
              cst.params :=
                {| cst.Parameters.params :=
                     [{| cst.name := "a"; cst.annotation := None |}];
                   cst.Parameters.default_params := [] |} |})
        [cst.Node cst.KOther []] ].

Definition b_py : cst.CSTNode :=
  cst.Node cst.KOther
    [ cst.Node (cst.KComment (str "# pyre-fixme[10]:")) [];
      cst.Node cst.KAnnAssign [] ].

Definition two_files_world : World :=
  {| cwd := Path.of_string "/repo";
     prepare := Ok tt;
     is_dir := fun path => bool_decide (path = Path.of_string "/repo");
     glob_py := fun path =>
       if decide (path = Path.of_string "/repo")
       then [ Path.of_string "/repo/a.py";
              Path.of_string "/repo/__init__.py";
              Path.of_string "/repo/b.py" ]
       else [];
     read_text := fun path =>
       if decide (path = Path.of_string "/repo/a.py") then Ok "text of a.py"
       else if decide (path = Path.of_string "/repo/b.py") then Ok "text of b.py"
       else Raise ReadError;
     parse_module := fun text =>
       if String.eqb text "text of a.py" then Ok a_py
       else if String.eqb text "text of b.py" then Ok b_py
       else Raise ParseError |}.

(** ** What a batch of trees holds *)

(** The kinds of all nodes of a batch, in the order [_count] meets them. *)
Definition kinds_of (paths : list cst.CSTNode) : list cst.NodeKind :=
  flat_map cst.preorder paths.

Definition function_defs (kinds : list cst.NodeKind) : list cst.FunctionDef :=
  flat_map (fun k => match k with cst.KFunctionDef node => [node] | _ => [] end) kinds.

Definition all_parameters (node : cst.FunctionDef) : list cst.Param :=
  cst.Parameters.default_params (cst.params node)
  ++ cst.Parameters.params (cst.params node).

Definition is_assign (k : cst.NodeKind) : bool :=
  match k with cst.KAssign => true | _ => false end.

Definition is_ann_assign (k : cst.NodeKind) : bool :=
  match k with cst.KAnnAssign => true | _ => false end.

Definition returns_annotated (node : cst.FunctionDef) : bool :=
  match cst.returns node with Some _ => true | None => false end.

(** Field by field sum of two collectors. *)
Definition add_counts (a b : AnnotationCountCollector.t) : AnnotationCountCollector.t :=
  {| AnnotationCountCollector.return_count :=
       AnnotationCountCollector.return_count a
       + AnnotationCountCollector.return_count b;
     AnnotationCountCollector.annotated_return_count :=
       AnnotationCountCollector.annotated_return_count a
       + AnnotationCountCollector.annotated_return_count b;
     AnnotationCountCollector.globals_count :=
       AnnotationCountCollector.globals_count a
       + AnnotationCountCollector.globals_count b;
     AnnotationCountCollector.annotated_globals_count :=
       AnnotationCountCollector.annotated_globals_count a
       + AnnotationCountCollector.annotated_globals_count b;
     AnnotationCountCollector.parameter_count :=
       AnnotationCountCollector.parameter_count a
       + AnnotationCountCollector.parameter_count b;
     AnnotationCountCollector.annotated_parameter_count :=
       AnnotationCountCollector.annotated_parameter_count a
       + AnnotationCountCollector.annotated_parameter_count b |}.

(** The digit groups of the comments of a batch that match the marker
    pattern, one per matching comment, in the order they are met. *)
Definition comment_codes (decimal : N -> bool) (kinds : list cst.NodeKind)
    : list (list N) :=
  flat_map (fun k =>
              match k with
              | cst.KComment value =>
                  match re_match decimal FixmeCountCollector.the_fixme_regex value with
                  | Some groups => [group1 groups]
                  | None => []
                  end
              | _ => []
              end) kinds.

(** How many times [code] stands in [codes]. *)
Definition occurrences (code : list N) (codes : list (list N)) : nat :=
  length (List.filter (str_eqb code) codes).

(** The keys of a map, in insertion order. *)
Definition keys (d : PyDict) : list (list N) := map fst (items d).

(** The body of the loop of [_parse_paths]: what one path adds. *)
Definition parse_path (w : World) (path : Path.t) : result (list cst.CSTNode) :=
  if is_dir w path then _parse_directory w path
  else tree ← _parse_file w path; Ok [tree].

(** The trees of a sequence of sources, each read by [f], in order; the first
    failure ends the reading. The loops of [_parse_directory] and
    [_parse_paths] are compared with it. *)
Fixpoint gather {A T : Type} (f : A -> result (list T)) (l : list A) : result (list T) :=
  match l with
  | [] => Ok []
  | a :: l' => g ← f a; gs ← gather f l'; Ok (g ++ gs)
  end.

(** One file as a sequence of one tree. *)
Definition parse_one (w : World) (file : Path.t) : result (list cst.CSTNode) :=
  tree ← _parse_file w file; Ok [tree].

(** The world of the two files with a third file between them that cannot be
    read. *)
Definition unreadable_file_world : World :=
  {| cwd := cwd two_files_world;
     prepare := prepare two_files_world;
     is_dir := is_dir two_files_world;
     glob_py := fun _ =>
       [ Path.of_string "/repo/a.py";
         Path.of_string "/repo/c.py";
         Path.of_string "/repo/b.py" ];
     read_text := read_text two_files_world;
     parse_module := parse_module two_files_world |}.

(** A comment whose code is the Arabic-Indic digit three, U+0663, and the
    file that holds it. *)
Definition arabic_three : list N := [1635%N].

Definition arabic_comment : list N := str "# pyre-fixme[" ++ arabic_three ++ str "]:".

Definition arabic_file : cst.CSTNode :=
  cst.Node cst.KOther [cst.Node (cst.KComment arabic_comment) []].

(** A world with one file, [a.py], whose only line is that comment. *)
Definition arabic_world : World :=
  {| cwd := cwd one_fixme_world;
     prepare := prepare one_fixme_world;
     is_dir := is_dir one_fixme_world;
     glob_py := glob_py one_fixme_world;
     read_text := read_text one_fixme_world;
     parse_module := fun _ => Ok arabic_file |}.

(** * Properties *)

(** ** Traversal *)

Lemma CSTNode_forall_ind (P : cst.CSTNode -> Prop) :
  (forall k cs, Forall P cs -> P (cst.Node k cs)) -> forall n, P n.
Proof.
  intros step. fix IH 1. intros [k cs]. apply step.
  induction cs as [|c cs IHcs]; constructor; [apply IH | exact IHcs].
Qed.

Lemma fold_left_flat_map {A B S : Type} (f : S -> B -> S) (g : A -> list B)
    (h : S -> A -> S) (l : list A) :
  Forall (fun a => forall s, h s a = fold_left f (g a) s) l ->
  forall s, fold_left h l s = fold_left f (flat_map g l) s.
Proof.
  induction 1 as [|a l Ha _ IH]; intros s; simpl; [reflexivity|].
  rewrite fold_left_app, <- Ha. apply IH.
Qed.

(** A visit fires the handlers in pre-order. *)
Lemma visit_preorder {S : Type} (on_visit : cst.NodeKind -> S -> S) (n : cst.CSTNode) :
  forall s, cst.visit on_visit n s
            = fold_left (fun acc k => on_visit k acc) (cst.preorder n) s.
Proof.
  induction n as [k cs IH] using CSTNode_forall_ind; intros s; simpl.
  apply (fold_left_flat_map (fun acc k => on_visit k acc) cst.preorder
           (fun acc c => cst.visit on_visit c acc)).
  eapply Forall_impl; [exact IH|]. intros c Hc s'. apply Hc.
Qed.

(** ** The annotation collector *)

Section Annotations.

Import AnnotationCountCollector.

Lemma check_parameter_annotations_counts (parameters : list cst.Param) :
  forall self : t,
    let self' := _check_parameter_annotations self parameters in
    parameter_count self' = parameter_count self + Z.of_nat (length parameters) /\
    annotated_parameter_count self'
      = annotated_parameter_count self + Z.of_nat (annotated_params parameters) /\
    return_count self' = return_count self /\
    annotated_return_count self' = annotated_return_count self /\
    globals_count self' = globals_count self /\
    annotated_globals_count self' = annotated_globals_count self.
Proof.
  unfold _check_parameter_annotations, annotated_params.
  induction parameters as [|p ps IH]; intros self.
  - simpl. repeat split; lia.
  - cbn [fold_left]. rewrite filter_cons.
    specialize (IH (check_parameter self p)). cbv zeta in IH.
    destruct IH as (Hp & Ha & Hr & Har & Hg & Hag).
    cbv zeta. rewrite Hp, Ha, Hr, Har, Hg, Hag. clear.
    unfold check_parameter.
    destruct (cst.annotation p) as [a|].
    + rewrite decide_True by eauto. simpl. repeat split; lia.
    + rewrite decide_False by (intros [x Hx]; discriminate). simpl. repeat split; lia.
Qed.

Lemma annotated_params_le (parameters : list cst.Param) :
  (annotated_params parameters <= length parameters)%nat.
Proof. unfold annotated_params. apply length_filter. Qed.

Lemma count_return_counts (self : t) (node : cst.FunctionDef) :
  let self' := count_return self node in
  return_count self' = return_count self + 1 /\
  annotated_return_count self'
    = annotated_return_count self + has_annotation (cst.returns node) /\
  parameter_count self' = parameter_count self /\
  annotated_parameter_count self' = annotated_parameter_count self /\
  globals_count self' = globals_count self /\
  annotated_globals_count self' = annotated_globals_count self.
Proof.
  unfold count_return. destruct (cst.returns node); simpl; repeat split; lia.
Qed.

Lemma visit_FunctionDef_one_pass (self : t) (node : cst.FunctionDef) :
  visit_FunctionDef self node
  = fold_left check_parameter
      (cst.Parameters.default_params (cst.params node)
       ++ cst.Parameters.params (cst.params node))
      (count_return self node).
Proof.
  unfold visit_FunctionDef, _check_parameter_annotations. now rewrite fold_left_app.
Qed.

(** The six counters after a function definition. *)
Lemma visit_FunctionDef_all_counters (self : t) (node : cst.FunctionDef) :
  let self' := visit_FunctionDef self node in
  let parameters :=
    cst.Parameters.default_params (cst.params node)
    ++ cst.Parameters.params (cst.params node) in
  return_count self' = return_count self + 1 /\
  annotated_return_count self'
    = annotated_return_count self + has_annotation (cst.returns node) /\
  parameter_count self' = parameter_count self + Z.of_nat (length parameters) /\
  annotated_parameter_count self'
    = annotated_parameter_count self + Z.of_nat (annotated_params parameters) /\
  globals_count self' = globals_count self /\
  annotated_globals_count self' = annotated_globals_count self.
Proof.
  intros self' parameters. subst self'. rewrite visit_FunctionDef_one_pass.
  fold parameters.
  pose proof (check_parameter_annotations_counts parameters (count_return self node)) as Hc.
  unfold _check_parameter_annotations in Hc. cbv zeta in Hc.
  destruct Hc as (Hp & Ha & Hr & Har & Hg & Hag).
  destruct (count_return_counts self node) as (Hr' & Har' & Hp' & Ha' & Hg' & Hag').
  rewrite Hr, Har, Hp, Ha, Hg, Hag, Hr', Har', Hp', Ha', Hg', Hag'.
  repeat split.
Qed.

(** C1. Visiting a function definition adds 1 to [return_count], adds 1 to
    [annotated_return_count] exactly when the node has a return annotation,
    adds the number N of parameters of the two sub-lists to [parameter_count]
    and the number K of annotated ones among them to
    [annotated_parameter_count]; the parameters are processed one by one, the
    default-parameter sub-list first, then the plain one. *)
Theorem visit_FunctionDef_counts (self : t) (node : cst.FunctionDef) :
  let self' := visit_FunctionDef self node in
  let parameters :=
    cst.Parameters.default_params (cst.params node)
    ++ cst.Parameters.params (cst.params node) in
  return_count self' = return_count self + 1 /\
  annotated_return_count self'
    = annotated_return_count self + has_annotation (cst.returns node) /\
  (annotated_return_count self' = annotated_return_count self + 1
   <-> is_Some (cst.returns node)) /\
  (annotated_return_count self' = annotated_return_count self
   <-> cst.returns node = None) /\
  parameter_count self' = parameter_count self + Z.of_nat (length parameters) /\
  annotated_parameter_count self'
    = annotated_parameter_count self + Z.of_nat (annotated_params parameters) /\
  self' = fold_left check_parameter parameters (count_return self node).
Proof.
  intros self' parameters.
  destruct (visit_FunctionDef_all_counters self node) as (Hr & Har & Hp & Ha & _).
  fold self' parameters in Hr, Har, Hp, Ha.
  split; [exact Hr|]. split; [exact Har|].
  split; [|split; [|split; [exact Hp|split; [exact Ha|]]]].
  - rewrite Har. destruct (cst.returns node) as [a|]; simpl; split.
    + intros _. exists a. reflexivity.
    + reflexivity.
    + lia.
    + intros [a Ha0]. discriminate.
  - rewrite Har. destruct (cst.returns node) as [a|]; simpl; split.
    + lia.
    + discriminate.
    + reflexivity.
    + lia.
  - apply visit_FunctionDef_one_pass.
Qed.

(** C3. A plain assignment adds 1 to [globals_count] only; an annotated
    assignment adds 1 to [globals_count] and 1 to [annotated_globals_count]
    only. *)
Theorem visit_assignments_counts (self : t) :
  (globals_count (visit_Assign self) = globals_count self + 1 /\
   annotated_globals_count (visit_Assign self) = annotated_globals_count self /\
   return_count (visit_Assign self) = return_count self /\
   annotated_return_count (visit_Assign self) = annotated_return_count self /\
   parameter_count (visit_Assign self) = parameter_count self /\
   annotated_parameter_count (visit_Assign self) = annotated_parameter_count self) /\
  (globals_count (visit_AnnAssign self) = globals_count self + 1 /\
   annotated_globals_count (visit_AnnAssign self) = annotated_globals_count self + 1 /\
   return_count (visit_AnnAssign self) = return_count self /\
   annotated_return_count (visit_AnnAssign self) = annotated_return_count self /\
   parameter_count (visit_AnnAssign self) = parameter_count self /\
   annotated_parameter_count (visit_AnnAssign self) = annotated_parameter_count self).
Proof. unfold visit_Assign, visit_AnnAssign. simpl. repeat split. Qed.

Lemma handle_preserves_invariant (self : t) (e : Event) :
  coverage_invariant self -> coverage_invariant (handle self e).
Proof.
  unfold coverage_invariant. intros (Hr & Hp & Hg).
  destruct e as [node| |]; cbn [handle].
  - destruct (visit_FunctionDef_all_counters self node)
      as (Er & Ear & Ep & Eap & Eg & Eag).
    pose proof (annotated_params_le
                  (cst.Parameters.default_params (cst.params node)
                   ++ cst.Parameters.params (cst.params node))) as Hle.
    assert (has_annotation (cst.returns node) <= 1)
      by (destruct (cst.returns node); simpl; lia).
    cbv zeta in Er, Ear, Ep, Eap, Eg, Eag.
    rewrite Er, Ear, Ep, Eap, Eg, Eag. repeat split; lia.
  - unfold visit_Assign. simpl. repeat split; lia.
  - unfold visit_AnnAssign. simpl. repeat split; lia.
Qed.

Lemma drive_preserves_invariant (events : list Event) :
  forall self, coverage_invariant self -> coverage_invariant (drive events self).
Proof.
  unfold drive. induction events as [|e events IH]; intros self Hinv; simpl.
  - exact Hinv.
  - apply IH, handle_preserves_invariant, Hinv.
Qed.

(** C4. Starting from a zero-initialised collector, after every step of any
    sequence of handler invocations each annotated counter is at most its
    total counter. *)
Theorem coverage_invariant_always (events : list Event) (n : nat) :
  coverage_invariant (drive (take n events) init).
Proof.
  apply drive_preserves_invariant. unfold coverage_invariant, init. simpl. lia.
Qed.

Lemma on_visit_preserves_invariant (k : cst.NodeKind) (self : t) :
  coverage_invariant self -> coverage_invariant (on_visit k self).
Proof.
  intros Hinv. destruct k as [node| | |value|]; cbn [on_visit]; try exact Hinv.
  - exact (handle_preserves_invariant self (OnFunctionDef node) Hinv).
  - exact (handle_preserves_invariant self OnAssign Hinv).
  - exact (handle_preserves_invariant self OnAnnAssign Hinv).
Qed.

(** The same after a whole batch of trees. *)
Lemma count_annotations_invariant (paths : list cst.CSTNode) :
  forall self,
    coverage_invariant self -> coverage_invariant (_count_annotations paths self).
Proof.
  unfold _count_annotations, _count.
  induction paths as [|tree paths IH]; intros self Hinv; cbn [fold_left];
    [exact Hinv|].
  apply IH. rewrite visit_preorder. clear IH.
  revert self Hinv. induction (cst.preorder tree) as [|k ks IHk];
    intros self Hinv; cbn [fold_left]; [exact Hinv|].
  apply IHk, on_visit_preserves_invariant, Hinv.
Qed.

End Annotations.

(** ** Strings *)

Lemma app_assoc_string (a b c : string) : (a +:+ b) +:+ c = a +:+ (b +:+ c).
Proof. induction a as [|x a' IH]; simpl; [reflexivity | now rewrite IH]. Qed.

Lemma app_nil_r_string (a : string) : a +:+ EmptyString = a.
Proof. induction a as [|x a' IH]; simpl; [reflexivity | now rewrite IH]. Qed.

Lemma length_app_string (a b : string) :
  String.length (a +:+ b) = (String.length a + String.length b)%nat.
Proof. induction a as [|x a' IH]; simpl; [reflexivity | now rewrite IH]. Qed.

Lemma strip_prefix_Some (p s r : string) :
  strip_prefix p s = Some r <-> s = p +:+ r.
Proof.
  revert s. induction p as [|a p IH]; intros s; simpl.
  - split; [intros [= ->]; reflexivity | intros ->; reflexivity].
  - destruct s as [|b s]; [split; discriminate|].
    destruct (Ascii.eqb_spec a b) as [->|Hne].
    + rewrite IH. split; [intros ->; reflexivity | intros [= ->]; reflexivity].
    + split; [discriminate | intros [= Hab _]; congruence].
Qed.

Lemma strip_prefix_app (p r : string) : strip_prefix p (p +:+ r) = Some r.
Proof. now apply strip_prefix_Some. Qed.

Lemma str_eqb_spec (a b : list N) : Bool.reflect (a = b) (str_eqb a b).
Proof.
  revert b. induction a as [|x a IH]; intros [|y b]; simpl;
    try (constructor; congruence).
  destruct (N.eqb_spec x y) as [->|Hne]; simpl.
  - destruct (IH b) as [->|Hne]; constructor; congruence.
  - constructor. congruence.
Qed.

Lemma str_eqb_refl (a : list N) : str_eqb a a = true.
Proof. now destruct (str_eqb_spec a a). Qed.

Lemma strip_chars_Some (p s r : list N) :
  strip_chars p s = Some r <-> s = p ++ r.
Proof.
  revert s. induction p as [|a p IH]; intros s; simpl.
  - split; [intros [= ->]; reflexivity | intros ->; reflexivity].
  - destruct s as [|b s]; [split; discriminate|].
    destruct (N.eqb_spec a b) as [->|Hne].
    + rewrite IH. split; [intros ->; reflexivity | intros [= ->]; reflexivity].
    + split; [discriminate | intros [= Hab _]; congruence].
Qed.

Lemma strip_chars_app (p r : list N) : strip_chars p (p ++ r) = Some r.
Proof. now apply strip_chars_Some. Qed.

Section Digits.

Variable decimal : N -> bool.

(** Whatever the table, a closing bracket is no digit. *)
Lemma digit_not_bracket (c : N) : is_digit decimal c = true -> (93 =? c)%N = false.
Proof.
  intros Hc. apply N.eqb_neq. intros <-. discriminate Hc.
Qed.

Lemma digits_prefix_after_digits (s : list N) :
  digits_prefix decimal s ++ after_digits decimal s = s.
Proof.
  induction s as [|c s IH]; simpl; [reflexivity|].
  destruct (is_digit decimal c); simpl; [now rewrite IH | reflexivity].
Qed.

Lemma all_digits_digits_prefix (s : list N) :
  all_digits decimal (digits_prefix decimal s) = true.
Proof.
  induction s as [|c s IH]; simpl; [reflexivity|].
  destruct (is_digit decimal c) eqn:E; simpl; [now rewrite E | reflexivity].
Qed.

(** A run of digits followed by a closing bracket is split where it ends. *)
Lemma digits_then_bracket (g rest : list N) :
  all_digits decimal g = true ->
  digits_prefix decimal (g ++ 93%N :: rest) = g /\
  after_digits decimal (g ++ 93%N :: rest) = 93%N :: rest.
Proof.
  induction g as [|c g IH]; simpl; intros Hg.
  - split; reflexivity.
  - apply andb_prop in Hg as [Hc Hg]. rewrite Hc.
    destruct (IH Hg) as [-> ->]. split; reflexivity.
Qed.

(** ** The regular expression *)

(** When what follows the group cannot start with a digit, the greedy run never
    gives a digit back: the group is the longest run of digits. *)
Lemma greedy_digits_longest {R : Type} (k : list N -> list N -> option R) :
  (forall taken c s, is_digit decimal c = true -> k taken (c :: s) = None) ->
  forall s taken,
    greedy_digits decimal k taken s
    = k (taken ++ digits_prefix decimal s) (after_digits decimal s).
Proof.
  intros Hk. induction s as [|c s IH]; intros taken; simpl.
  - now rewrite app_nil_r.
  - destruct (is_digit decimal c) eqn:Hc.
    + rewrite IH, <- app_assoc. simpl.
      destruct (k (taken ++ c :: digits_prefix decimal s) (after_digits decimal s)) eqn:E;
        [reflexivity|]. now apply Hk.
    + now rewrite app_nil_r.
Qed.

(** What [re.match] computes on the marker pattern: the comment without the
    literal head, its longest run of digits, then the literal tail. *)
Lemma re_match_fixme_unfold (value : list N) :
  re_match decimal FixmeCountCollector.the_fixme_regex value =
  match strip_chars (str "# pyre-fixme[") value with
  | Some s =>
      match strip_chars (str "]:") (after_digits decimal s) with
      | Some _ => Some [digits_prefix decimal s]
      | None => None
      end
  | None => None
  end.
Proof.
  unfold re_match, FixmeCountCollector.the_fixme_regex.
  cbn [re_match_from].
  destruct (strip_chars (str "# pyre-fixme[") value) as [s|]; [|reflexivity].
  rewrite greedy_digits_longest.
  - reflexivity.
  - intros taken c s' Hc.
    change (str "]:") with [93%N; 58%N]. cbn [strip_chars].
    now rewrite (digit_not_bracket c Hc).
Qed.

Lemma re_match_fixme_Some (value : list N) (groups : list (list N)) :
  re_match decimal FixmeCountCollector.the_fixme_regex value = Some groups <->
  exists g, groups = [g] /\ begins_with_marker decimal value g.
Proof.
  rewrite re_match_fixme_unfold. unfold begins_with_marker, marker. split.
  - destruct (strip_chars (str "# pyre-fixme[") value) as [s|] eqn:Hs; [|discriminate].
    destruct (strip_chars (str "]:") (after_digits decimal s)) as [rest|] eqn:Hr;
      [|discriminate].
    intros [= <-]. exists (digits_prefix decimal s). split; [reflexivity|].
    split; [apply all_digits_digits_prefix|]. exists rest.
    apply strip_chars_Some in Hs, Hr. rewrite Hs.
    rewrite <- !app_assoc. f_equal. rewrite <- Hr.
    symmetry. apply digits_prefix_after_digits.
  - intros (g & -> & Hg & rest & ->).
    rewrite <- !app_assoc. rewrite strip_chars_app.
    change (str "]:" ++ rest) with (93%N :: 58%N :: rest).
    destruct (digits_then_bracket g (58%N :: rest) Hg) as [-> ->].
    reflexivity.
Qed.

Lemma re_match_fixme_None (value : list N) :
  re_match decimal FixmeCountCollector.the_fixme_regex value = None <->
  forall g, ~ begins_with_marker decimal value g.
Proof.
  split.
  - intros Hnone g Hg.
    assert (re_match decimal FixmeCountCollector.the_fixme_regex value = Some [g]) as E
      by (apply re_match_fixme_Some; eauto).
    congruence.
  - intros Hno.
    destruct (re_match decimal FixmeCountCollector.the_fixme_regex value)
      as [groups|] eqn:E; [|reflexivity].
    apply re_match_fixme_Some in E as (g & _ & Hg). now destruct (Hno g).
Qed.

End Digits.

(** ** Dictionaries *)

Lemma items_get_set_eq (key : list N) (v : Z) (its : list (list N * Z)) :
  items_get key (items_set key v its) = Some v.
Proof.
  induction its as [|[k w] its IH]; simpl.
  - now rewrite str_eqb_refl.
  - destruct (str_eqb key k) eqn:E; simpl; rewrite E; [reflexivity | exact IH].
Qed.

Lemma items_get_set_ne (key key' : list N) (v : Z) (its : list (list N * Z)) :
  key <> key' -> items_get key' (items_set key v its) = items_get key' its.
Proof.
  intros Hne. induction its as [|[k w] its IH]; simpl.
  - destruct (str_eqb_spec key' key); [congruence | reflexivity].
  - destruct (str_eqb_spec key k) as [->|Hk]; simpl.
    + destruct (str_eqb_spec key' k); [congruence | reflexivity].
    + now rewrite IH.
Qed.

Lemma items_set_set (key : list N) (v w : Z) (its : list (list N * Z)) :
  items_set key w (items_set key v its) = items_set key w its.
Proof.
  induction its as [|[k u] its IH]; simpl.
  - now rewrite str_eqb_refl.
  - destruct (str_eqb key k) eqn:E; simpl; rewrite E; [reflexivity | now rewrite IH].
Qed.

Lemma counter_incremented_eq (d : PyDict) (key : list N) :
  counter (incremented d key) key = counter d key + 1.
Proof. unfold counter at 1, incremented; simpl. now rewrite items_get_set_eq. Qed.

Lemma counter_incremented_ne (d : PyDict) (key k : list N) :
  k <> key -> counter (incremented d key) k = counter d k.
Proof.
  intros Hne. unfold counter, incremented; simpl.
  now rewrite items_get_set_ne by congruence.
Qed.

(** ** The suppression collector *)

Section Fixmes.

Import FixmeCountCollector.

Variable decimal : N -> bool.

Lemma increment_defaultdict (self : t) (key : list N) (h : heap) (d : PyDict) :
  h !! fixme_counts self = Some d ->
  default_factory d = true ->
  increment self key h = Ok (<[fixme_counts self := incremented d key]> h).
Proof.
  intros Hd Hdef. unfold increment, getitem, incremented, counter. rewrite Hd, Hdef.
  destruct (items_get key (items d)) as [v|] eqn:E; simpl.
  - unfold setitem. now rewrite Hdef.
  - unfold setitem; simpl. now rewrite items_set_set.
Qed.

Lemma visit_Comment_match (fc : option loc) (value g : list N) (h : heap) (d : PyDict) :
  h !! fixme_counts (init fc) = Some d ->
  default_factory d = true ->
  begins_with_marker decimal value g ->
  visit_Comment decimal (init fc) value h
  = Ok (<[fixme_counts (init fc) := incremented d g]> h).
Proof.
  intros Hd Hdef Hg. unfold visit_Comment.
  assert (re_match decimal (fixme_regex (init fc)) value = Some [g]) as ->
    by (apply re_match_fixme_Some; eauto).
  now apply increment_defaultdict.
Qed.

Lemma visit_Comment_no_match (fc : option loc) (value : list N) (h : heap) :
  (forall g, ~ begins_with_marker decimal value g) ->
  visit_Comment decimal (init fc) value h = Ok h.
Proof.
  intros Hno. unfold visit_Comment.
  now assert (re_match decimal (fixme_regex (init fc)) value = None) as ->
    by (apply re_match_fixme_None; exact Hno).
Qed.

Lemma begins_with_marker_computed (value g : list N) :
  re_match decimal the_fixme_regex value = Some [g] ->
  begins_with_marker decimal value g.
Proof. intros E. apply re_match_fixme_Some in E as (g' & [= <-] & Hg). exact Hg. Qed.

Lemma no_marker_computed (value : list N) :
  re_match decimal the_fixme_regex value = None ->
  forall g, ~ begins_with_marker decimal value g.
Proof. apply re_match_fixme_None. Qed.

(** C2. On a collector whose map is a [defaultdict(int)]: a comment that
    begins with a marker of digit group [g] adds 1 to the counter of [g] and
    changes no other counter and no other object; a comment that begins with
    no marker changes nothing; the four comments of the example, visited from
    an empty map, leave exactly 7 -> 2 and 35 -> 1; the marker with an empty
    digit group adds 1 to the counter of the empty string. The digits of a
    group are those of the pattern: the ASCII digits and the decimal digits
    of the interpreter's Unicode table. *)
Theorem visit_Comment_counts (fc : option loc) (h : heap) (d : PyDict) :
  let self := init fc in
  h !! fixme_counts self = Some d ->
  default_factory d = true ->
  (forall value g, begins_with_marker decimal value g ->
     exists d',
       visit_Comment decimal self value h = Ok (<[fixme_counts self := d']> h) /\
       counter d' g = counter d g + 1 /\
       forall k, k <> g -> counter d' k = counter d k) /\
  (forall value, (forall g, ~ begins_with_marker decimal value g) ->
     visit_Comment decimal self value h = Ok h) /\
  (items d = [] ->
     exists d',
       cst.visit (on_visit decimal self) four_comments (Ok h)
       = Ok (<[fixme_counts self := d']> h) /\
       items d' = [(str "7", 2); (str "35", 1)]) /\
  (exists d',
     visit_Comment decimal self (str "# pyre-fixme[]:") h
     = Ok (<[fixme_counts self := d']> h) /\
     items_get [] (items d') = Some (counter d [] + 1)).
Proof.
  intros self Hd Hdef. subst self. repeat apply conj.
  - intros value g Hg. exists (incremented d g). split; [|split].
    + now apply visit_Comment_match.
    + apply counter_incremented_eq.
    + intros k Hk. now apply counter_incremented_ne.
  - intros value Hno. now apply visit_Comment_no_match.
  - intros Hempty.
    pose (d1 := incremented d (str "7")). pose (d2 := incremented d1 (str "7")).
    pose (d3 := incremented d2 (str "35")).
    exists d3. split.
    + cbn [cst.visit four_comments fold_left on_visit mbind result_bind].
      rewrite (visit_Comment_match fc _ (str "7") h d Hd Hdef)
        by (apply begins_with_marker_computed; reflexivity).
      cbn [mbind result_bind].
      rewrite (visit_Comment_match fc _ (str "7") _ d1)
        by (first [apply lookup_insert_eq | reflexivity
                  | apply begins_with_marker_computed; reflexivity]).
      cbn [mbind result_bind].
      rewrite (visit_Comment_match fc _ (str "35") _ d2)
        by (first [apply lookup_insert_eq | reflexivity
                  | apply begins_with_marker_computed; reflexivity]).
      cbn [mbind result_bind].
      rewrite (visit_Comment_no_match fc)
        by (apply no_marker_computed; reflexivity).
      now rewrite !insert_insert_eq.
    + subst d3 d2 d1. unfold incremented, counter. simpl. rewrite Hempty. reflexivity.
  - exists (incremented d []). split.
    + apply visit_Comment_match; [exact Hd | exact Hdef|].
      apply begins_with_marker_computed. reflexivity.
    + unfold incremented; simpl. apply items_get_set_eq.
Qed.

Lemma first_character_of_marker (c : N) (s g : list N) :
  begins_with_marker decimal (c :: s) g -> c = 35%N.
Proof.
  intros (_ & rest & E). unfold marker in E.
  change (str "# pyre-fixme[") with (35%N :: str " pyre-fixme[") in E.
  cbn [app] in E. now injection E.
Qed.

(** C8. The match is anchored at the start and free at the end: a comment
    that begins with a marker counts toward the marker's digit group whatever
    follows the colon, and a comment that holds a marker further in, but does
    not begin with one, changes nothing. *)
Theorem marker_match_is_prefix_only (fc : option loc) (h : heap) (d : PyDict) :
  let self := init fc in
  h !! fixme_counts self = Some d ->
  default_factory d = true ->
  (forall g rest, all_digits decimal g = true ->
     exists d',
       visit_Comment decimal self (marker g ++ rest) h
       = Ok (<[fixme_counts self := d']> h) /\
       counter d' g = counter d g + 1 /\
       forall k, k <> g -> counter d' k = counter d k) /\
  (exists d',
     visit_Comment decimal self (str "# pyre-fixme[7]: explanation text") h
     = Ok (<[fixme_counts self := d']> h) /\
     counter d' (str "7") = counter d (str "7") + 1) /\
  (forall pre g rest,
     (forall g0, ~ begins_with_marker decimal (pre ++ marker g ++ rest) g0) ->
     visit_Comment decimal self (pre ++ marker g ++ rest) h = Ok h) /\
  (forall c pre g rest, c <> 35%N ->
     visit_Comment decimal self (c :: pre ++ marker g ++ rest) h = Ok h) /\
  visit_Comment decimal self (str "#  pyre-fixme[7]:") h = Ok h /\
  visit_Comment decimal self (str "# type: ignore # pyre-fixme[7]:") h = Ok h.
Proof.
  intros self Hd Hdef. subst self. repeat apply conj.
  - intros g rest Hg. exists (incremented d g). split; [|split].
    + apply visit_Comment_match; [exact Hd | exact Hdef|].
      split; [exact Hg | now exists rest].
    + apply counter_incremented_eq.
    + intros k Hk. now apply counter_incremented_ne.
  - exists (incremented d (str "7")). split.
    + apply visit_Comment_match; [exact Hd | exact Hdef|].
      apply begins_with_marker_computed. reflexivity.
    + apply counter_incremented_eq.
  - intros pre g rest Hno. now apply visit_Comment_no_match.
  - intros c pre g rest Hc. apply visit_Comment_no_match.
    intros g0 Hg0. now apply first_character_of_marker in Hg0.
  - apply visit_Comment_no_match, no_marker_computed. reflexivity.
  - apply visit_Comment_no_match, no_marker_computed. reflexivity.
Qed.

(** C9. [build_json] puts the items of the collector's map in a new object:
    no object the heap already holds changes (the collector's map least of
    all), a second call returns a map with the same items, and whatever is
    stored in the returned object afterwards, the collector's map and what
    [build_json] returns next are as before. *)
Theorem build_json_fresh_copy (self : t) (h : heap) (d : PyDict) :
  h !! fixme_counts self = Some d ->
  let copy := {| default_factory := false; items := items d |} in
  exists l,
    build_json self h = Ok (l, <[l := copy]> h) /\
    h !! l = None /\
    l <> fixme_counts self /\
    (forall l', l' <> l -> (<[l := copy]> h) !! l' = h !! l') /\
    (<[l := copy]> h) !! fixme_counts self = Some d /\
    (exists l2,
       build_json self (<[l := copy]> h) = Ok (l2, <[l2 := copy]> (<[l := copy]> h)) /\
       l2 <> l /\
       (<[l2 := copy]> (<[l := copy]> h)) !! l2 = (<[l := copy]> h) !! l) /\
    (forall mutated : PyDict,
       (<[l := mutated]> (<[l := copy]> h)) !! fixme_counts self = Some d /\
       exists l3,
         build_json self (<[l := mutated]> (<[l := copy]> h))
         = Ok (l3, <[l3 := copy]> (<[l := mutated]> (<[l := copy]> h))) /\
         l3 <> l).
Proof.
  intros Hd copy.
  set (l := fresh (dom h)).
  assert (Hl : h !! l = None) by (apply not_elem_of_dom, is_fresh).
  assert (Hne : l <> fixme_counts self) by congruence.
  assert (Hself : (<[l := copy]> h) !! fixme_counts self = Some d)
    by now rewrite lookup_insert_ne.
  exists l. repeat apply conj.
  - unfold build_json, alloc. now rewrite Hd.
  - exact Hl.
  - exact Hne.
  - intros l' Hl'. now rewrite lookup_insert_ne.
  - exact Hself.
  - set (l2 := fresh (dom (<[l := copy]> h))).
    assert (Hl2 : (<[l := copy]> h) !! l2 = None) by (apply not_elem_of_dom, is_fresh).
    exists l2. repeat apply conj.
    + unfold build_json, alloc. now rewrite Hself.
    + intros ->. now rewrite lookup_insert_eq in Hl2.
    + now rewrite !lookup_insert_eq.
  - intros mutated.
    assert (Hself' : (<[l := mutated]> (<[l := copy]> h)) !! fixme_counts self = Some d)
      by now rewrite lookup_insert_ne.
    split; [exact Hself'|].
    set (l3 := fresh (dom (<[l := mutated]> (<[l := copy]> h)))).
    assert (Hl3 : (<[l := mutated]> (<[l := copy]> h)) !! l3 = None)
      by (apply not_elem_of_dom, is_fresh).
    exists l3. split.
    + unfold build_json, alloc. now rewrite Hself'.
    + intros ->. now rewrite lookup_insert_eq in Hl3.
Qed.

Lemma build_json_fresh_copy_witness :
  exists l,
    build_json (init None) module_heap
    = Ok (l, <[l := {| default_factory := false; items := [] |}]> module_heap) /\
    module_heap !! l = None.
Proof.
  destruct (build_json_fresh_copy (init None) module_heap
              {| default_factory := true; items := [] |} eq_refl)
    as (l & Hb & Hl & _).
  exists l. split; [exact Hb | exact Hl].
Defined.

End Fixmes.

Lemma visit_Comment_counts_witness :
  exists d',
    cst.visit (FixmeCountCollector.on_visit decimal_14 (FixmeCountCollector.init None))
      four_comments (Ok FixmeCountCollector.module_heap)
    = Ok (<[FixmeCountCollector.fixme_counts (FixmeCountCollector.init None) := d']>
            FixmeCountCollector.module_heap) /\
    items d' = [(str "7", 2); (str "35", 1)].
Proof.
  apply (visit_Comment_counts decimal_14 None FixmeCountCollector.module_heap
           {| default_factory := true; items := [] |});
    reflexivity.
Defined.

Lemma marker_match_is_prefix_only_witness :
  FixmeCountCollector.visit_Comment decimal_14 (FixmeCountCollector.init None)
    (str "#  pyre-fixme[7]:") FixmeCountCollector.module_heap
  = Ok FixmeCountCollector.module_heap /\
  FixmeCountCollector.visit_Comment decimal_14 (FixmeCountCollector.init None)
    (str "# type: ignore # pyre-fixme[7]:") FixmeCountCollector.module_heap
  = Ok FixmeCountCollector.module_heap.
Proof.
  apply (marker_match_is_prefix_only decimal_14 None FixmeCountCollector.module_heap
           {| default_factory := true; items := [] |});
    reflexivity.
Defined.

(** A digit of another script is a digit of the pattern: with the table of
    Unicode 14.0 the comment whose code is the Arabic-Indic three is counted
    under that code, and so is it after an ASCII digit. *)
Example arabic_digit_is_counted :
  FixmeCountCollector.visit_Comment decimal_14 (FixmeCountCollector.init None)
    arabic_comment FixmeCountCollector.module_heap
  = Ok (<[FixmeCountCollector.default_fixme_counts :=
           {| default_factory := true; items := [(arabic_three, 1)] |}]>
          FixmeCountCollector.module_heap) /\
  re_match decimal_14 FixmeCountCollector.the_fixme_regex
    (str "# pyre-fixme[4" ++ arabic_three ++ str "]: see # pyre-fixme[7]:")
  = Some [str "4" ++ arabic_three].
Proof. split; reflexivity. Qed.

(** ** The path resolver *)

Lemma startswith_true (s p : string) :
  startswith s p = true <-> exists r, s = p +:+ r.
Proof.
  unfold startswith. rewrite bool_decide_eq_true. split.
  - intros [r Hr]. exists r. now apply strip_prefix_Some.
  - intros [r ->]. exists r. apply strip_prefix_app.
Qed.

(** Once inside an occurrence, [replace_from] passes what is left of it. *)
Lemma replace_from_skip (old new u v : string) :
  replace_from old new (String.length u) (u +:+ v) = replace_from old new 0 v.
Proof.
  induction u as [|c u IH]; simpl; [|exact IH].
  destruct v; reflexivity.
Qed.

Lemma eqb_app_longer (c : ascii) (a m : string) :
  String.eqb (String c a +:+ m) m = false.
Proof.
  apply String.eqb_neq. intros E.
  apply (f_equal String.length) in E. rewrite length_app_string in E.
  simpl in E. lia.
Qed.

(** Deleting every occurrence of a non-empty [old] from a string in which
    [old] occurs at the end only, if at all, is removing that suffix. *)
Lemma delete_is_remove_suffix (c0 : ascii) (m' s : string) :
  let old := String c0 m' in
  (forall a b, s = a +:+ old +:+ b -> b = EmptyString) ->
  str_replace s old EmptyString = remove_suffix old s.
Proof.
  intros old. unfold str_replace. subst old.
  induction s as [|c s IH]; intros Htrail; [reflexivity|].
  cbn [replace_from remove_suffix].
  destruct (String.eqb_spec (String c s) (String c0 m')) as [E|Hne].
  - injection E as -> ->.
    assert (startswith (String c0 m') (String c0 m') = true) as ->
      by (apply startswith_true; exists EmptyString; now rewrite app_nil_r_string).
    cbn [String.length]. rewrite Nat.sub_succ, Nat.sub_0_r.
    rewrite <- (app_nil_r_string m') at 3. rewrite replace_from_skip. reflexivity.
  - destruct (startswith (String c s) (String c0 m')) eqn:Hstart.
    + exfalso. apply startswith_true in Hstart as [r Hr].
      assert (r = EmptyString) as -> by (apply (Htrail EmptyString r); exact Hr).
      rewrite app_nil_r_string in Hr. contradiction.
    + f_equal. apply IH. intros a b Hab.
      apply (Htrail (String c a) b). simpl. now rewrite Hab.
Qed.

Lemma remove_suffix_app (m a : string) : remove_suffix m (a +:+ m) = a.
Proof.
  induction a as [|c a IH].
  - simpl. destruct m; simpl; now rewrite ?String.eqb_refl, ?Ascii.eqb_refl.
  - cbn [String.append remove_suffix].
    change (String c (a +:+ m)) with (String c a +:+ m) at 1.
    rewrite eqb_app_longer. now rewrite IH.
Qed.

(** C6. For a non-empty override in which the configuration marker occurs at
    the end only, if at all, the base directory is the override without that
    trailing marker, read as a path; no file system is consulted. *)
Theorem override_base_directory (cwd : Path.t) (override : string) :
  override <> EmptyString ->
  only_trailing_marker override ->
  pyre_configuration_directory cwd override
  = Path.of_string (remove_suffix configuration_marker override) /\
  _find_paths cwd override []
  = [Path.of_string (remove_suffix configuration_marker override)].
Proof.
  intros Hne Htrail.
  assert (E : pyre_configuration_directory cwd override
              = Path.of_string (remove_suffix configuration_marker override)).
  { unfold pyre_configuration_directory.
    destruct override as [|c s]; [contradiction|].
    f_equal. apply (delete_is_remove_suffix "." "pyre_configuration.local").
    exact Htrail. }
  split; [exact E|]. unfold _find_paths. now rewrite E.
Qed.

Lemma only_trailing_markerb_head (s : string) :
  only_trailing_markerb s = true ->
  startswith s configuration_marker = true ->
  s = configuration_marker.
Proof.
  intros Hb Hs.
  destruct s; cbn [only_trailing_markerb] in Hb; rewrite Hs in Hb;
    apply andb_prop in Hb as [Hb _]; now apply String.eqb_eq.
Qed.

Lemma only_trailing_markerb_sound (s : string) :
  only_trailing_markerb s = true -> only_trailing_marker s.
Proof.
  intros Hb a b ->. revert Hb.
  induction a as [|c a IH]; intros Hb.
  - apply only_trailing_markerb_head in Hb;
      [|apply startswith_true; now exists b].
    apply (f_equal String.length) in Hb.
    change (EmptyString +:+ configuration_marker +:+ b)
      with (configuration_marker +:+ b) in Hb.
    rewrite length_app_string in Hb.
    destruct b; [reflexivity | simpl in Hb; lia].
  - cbn [String.append only_trailing_markerb] in Hb.
    apply andb_prop in Hb as [_ Hb]. now apply IH.
Qed.

Lemma override_base_directory_witness :
  pyre_configuration_directory (Path.of_string "/repo") "proj/.pyre_configuration.local"
  = Path.of_string "proj/" /\
  _find_paths (Path.of_string "/repo") "proj/.pyre_configuration.local" []
  = [Path.of_string "proj/"].
Proof.
  apply (override_base_directory (Path.of_string "/repo")
           "proj/.pyre_configuration.local").
  - discriminate.
  - apply only_trailing_markerb_sound. reflexivity.
Defined.

(** The marker is deleted wherever it stands, not at the end only. *)
Example inner_marker_is_deleted :
  pyre_configuration_directory (Path.of_string "/repo") "a.pyre_configuration.local/b"
  = Path.of_string "a/b".
Proof. reflexivity. Qed.

(** C7. Without filters the resolver returns the base directory alone; with
    filters it returns the base directory joined with each filter, one path
    per filter, in the order given, a repeated filter giving a repeated path. *)
Theorem find_paths_resolution (cwd : Path.t) (local_configuration : string)
    (paths : list string) :
  let base := pyre_configuration_directory cwd local_configuration in
  _find_paths cwd local_configuration [] = [base] /\
  (forall path rest,
     _find_paths cwd local_configuration (path :: rest)
     = Path.joinpath base path :: map (Path.joinpath base) rest) /\
  (paths <> [] ->
     _find_paths cwd local_configuration paths = map (Path.joinpath base) paths /\
     length (_find_paths cwd local_configuration paths) = length paths /\
     forall (i : nat) path,
       paths !! i = Some path ->
       _find_paths cwd local_configuration paths !! i = Some (Path.joinpath base path)) /\
  (forall path,
     _find_paths cwd local_configuration [path; path]
     = [Path.joinpath base path; Path.joinpath base path]).
Proof.
  intros base. repeat apply conj.
  - reflexivity.
  - reflexivity.
  - intros Hne. destruct paths as [|p ps]; [contradiction|].
    assert (E : _find_paths cwd local_configuration (p :: ps)
                = map (Path.joinpath base) (p :: ps)) by reflexivity.
    rewrite E. repeat apply conj.
    + reflexivity.
    + apply length_map.
    + intros i path Hi. change (map (Path.joinpath base) (p :: ps))
        with (Path.joinpath base <$> (p :: ps)).
      now rewrite list_lookup_fmap, Hi.
  - reflexivity.
Qed.

(** C10. The resolver never returns an empty sequence: it returns as many
    paths as there are filters when there is one at least, and one path
    otherwise. *)
Theorem find_paths_length (cwd : Path.t) (local_configuration : string)
    (paths : list string) :
  length (_find_paths cwd local_configuration paths)
  = match paths with
    | [] => 1%nat
    | _ :: _ => length paths
    end /\
  (1 <= length (_find_paths cwd local_configuration paths))%nat /\
  _find_paths cwd local_configuration paths <> [].
Proof.
  destruct paths as [|p ps]; unfold _find_paths; cbn [map length].
  - repeat split; [lia | discriminate].
  - rewrite length_map. repeat split; [lia | discriminate].
Qed.

(** ** The pipeline *)

(** C5, on the code: in one interpreter, the first run on the one-file world
    reports one suppression of code 7 and the second run, on the same input,
    reports two; the two reports differ. *)
Theorem run_twice_reports_differ (decimal : N -> bool) :
  exists h1 h2,
    _run decimal one_fixme_world one_fixme_command FixmeCountCollector.module_heap
    = Ok (report_of_fixmes [(str "7", 1)], h1) /\
    _run decimal one_fixme_world one_fixme_command h1
    = Ok (report_of_fixmes [(str "7", 2)], h2) /\
    String.eqb (report_of_fixmes [(str "7", 1)]) (report_of_fixmes [(str "7", 2)])
    = false.
Proof.
  eexists _, _. split; [|split].
  - vm_compute. reflexivity.
  - vm_compute. reflexivity.
  - vm_compute. reflexivity.
Qed.

(** The end-to-end scenario: no override, no filters, a fresh interpreter. *)
Example run_end_to_end (decimal : N -> bool) :
  exists h,
    _run decimal two_files_world
         {| _local_configuration := EmptyString; _filter_paths := [] |}
         FixmeCountCollector.module_heap
    = Ok (json_dumps
            [ (str "annotations",
               [ (str "return_count", 1); (str "annotated_return_count", 1);
                 (str "globals_count", 2); (str "annotated_globals_count", 1);
                 (str "parameter_count", 1); (str "annotated_parameter_count", 0) ]);
              (str "fixmes", [(str "10", 1)]) ],
          h).
Proof. eexists. vm_compute. reflexivity. Qed.

(** A failure to read or parse a file ends the run without a report. *)
Example run_unreadable_file (decimal : N -> bool) :
  _run decimal two_files_world
       {| _local_configuration := EmptyString; _filter_paths := ["missing.py"] |}
       FixmeCountCollector.module_heap
  = Raise ReadError.
Proof. vm_compute. reflexivity. Qed.

(** * More of the module *)

(** ** Annotation counts of a batch *)

Section AnnotationBatches.

Import AnnotationCountCollector.

Lemma collector_ext (a b : t) :
  return_count a = return_count b ->
  annotated_return_count a = annotated_return_count b ->
  globals_count a = globals_count b ->
  annotated_globals_count a = annotated_globals_count b ->
  parameter_count a = parameter_count b ->
  annotated_parameter_count a = annotated_parameter_count b ->
  a = b.
Proof. destruct a, b; simpl; intros; subst; reflexivity. Qed.

Lemma add_counts_init_r (a : t) : add_counts a init = a.
Proof. apply collector_ext; simpl; lia. Qed.

Lemma add_counts_assoc (a b c : t) :
  add_counts (add_counts a b) c = add_counts a (add_counts b c).
Proof. apply collector_ext; simpl; lia. Qed.

Lemma add_counts_comm (a b : t) : add_counts a b = add_counts b a.
Proof. apply collector_ext; simpl; lia. Qed.

(** What a node adds does not depend on the counters it is added to. *)
Lemma on_visit_add_counts (k : cst.NodeKind) (self : t) :
  on_visit k self = add_counts self (on_visit k init).
Proof.
  destruct k as [node| | |value|]; cbn [on_visit];
    try (apply collector_ext; simpl; lia).
  destruct (visit_FunctionDef_all_counters self node) as (A1 & A2 & A3 & A4 & A5 & A6).
  destruct (visit_FunctionDef_all_counters init node) as (B1 & B2 & B3 & B4 & B5 & B6).
  cbv zeta in *.
  apply collector_ext; cbn [add_counts return_count annotated_return_count
    globals_count annotated_globals_count parameter_count annotated_parameter_count];
    rewrite ?A1, ?A2, ?A3, ?A4, ?A5, ?A6, ?B1, ?B2, ?B3, ?B4, ?B5, ?B6; simpl; lia.
Qed.

Lemma count_annotations_as_fold (paths : list cst.CSTNode) (self : t) :
  _count_annotations paths self
  = fold_left (fun acc k => on_visit k acc) (kinds_of paths) self.
Proof.
  unfold _count_annotations, _count, kinds_of.
  apply (fold_left_flat_map (fun acc k => on_visit k acc) cst.preorder
           (fun c path => cst.visit on_visit path c)).
  apply Forall_forall. intros tree _ s. apply visit_preorder.
Qed.

Lemma fold_on_visit_add_counts (kinds : list cst.NodeKind) :
  forall self,
    fold_left (fun acc k => on_visit k acc) kinds self
    = add_counts self (fold_left (fun acc k => on_visit k acc) kinds init).
Proof.
  induction kinds as [|k kinds IH]; intros self; cbn [fold_left].
  - now rewrite add_counts_init_r.
  - rewrite (IH (on_visit k self)), (IH (on_visit k init)).
    rewrite (on_visit_add_counts k self). apply add_counts_assoc.
Qed.

(** X1. From any starting counters, a batch adds to each counter the number
    of nodes of its kind in all the trees, nested ones included: function
    definitions, those with a return annotation, their parameters, the
    annotated ones among them, assignments of both kinds, annotated
    assignments. *)
Theorem count_annotations_tallies (paths : list cst.CSTNode) (self : t) :
  let kinds := kinds_of paths in
  let functions := function_defs kinds in
  let parameters := flat_map all_parameters functions in
  let after := _count_annotations paths self in
  return_count after = return_count self + Z.of_nat (length functions) /\
  annotated_return_count after
  = annotated_return_count self
    + Z.of_nat (length (List.filter returns_annotated functions)) /\
  parameter_count after = parameter_count self + Z.of_nat (length parameters) /\
  annotated_parameter_count after
  = annotated_parameter_count self + Z.of_nat (annotated_params parameters) /\
  globals_count after
  = globals_count self
    + Z.of_nat (length (List.filter is_assign kinds)
                + length (List.filter is_ann_assign kinds)) /\
  annotated_globals_count after
  = annotated_globals_count self + Z.of_nat (length (List.filter is_ann_assign kinds)).
Proof.
  cbv zeta. rewrite count_annotations_as_fold.
  generalize (kinds_of paths) as kinds. intros kinds. revert self.
  induction kinds as [|k kinds IH]; intros self.
  - cbn. repeat split; lia.
  - cbn [fold_left]. destruct (IH (on_visit k self)) as (R & AR & P & AP & G & AG).
    rewrite R, AR, P, AP, G, AG. clear IH R AR P AP G AG.
    destruct k as [node| | |value|]; cbn [on_visit function_defs flat_map app
      List.filter is_assign is_ann_assign length].
    + destruct (visit_FunctionDef_all_counters self node) as (A1 & A2 & A3 & A4 & A5 & A6).
      cbv zeta in *. rewrite A1, A2, A3, A4, A5, A6.
      fold (function_defs kinds).
      change (cst.Parameters.default_params (cst.params node)
              ++ cst.Parameters.params (cst.params node)) with (all_parameters node).
      unfold annotated_params. rewrite filter_app, !length_app.
      assert (has_annotation (cst.returns node)
              = if returns_annotated node then 1 else 0) as ->
        by (unfold has_annotation, returns_annotated; now destruct (cst.returns node)).
      destruct (returns_annotated node); cbn [length]; repeat split; lia.
    + fold (function_defs kinds). unfold visit_Assign. simpl. repeat split; lia.
    + fold (function_defs kinds). unfold visit_AnnAssign. simpl. repeat split; lia.
    + fold (function_defs kinds). repeat split; lia.
    + fold (function_defs kinds). repeat split; lia.
Qed.

(** X2. The counts of a batch are the sum of the counts of its parts: the
    files of a batch contribute independently of each other and of the
    counters the batch started from. *)
Theorem count_annotations_app (paths1 paths2 : list cst.CSTNode) (self : t) :
  _count_annotations (paths1 ++ paths2) self
  = add_counts (_count_annotations paths1 self) (_count_annotations paths2 init) /\
  _count_annotations paths1 self = add_counts self (_count_annotations paths1 init).
Proof.
  rewrite !count_annotations_as_fold. unfold kinds_of.
  rewrite flat_map_app, fold_left_app. split.
  - apply fold_on_visit_add_counts.
  - apply fold_on_visit_add_counts.
Qed.

Lemma on_visit_commute (k1 k2 : cst.NodeKind) (self : t) :
  on_visit k2 (on_visit k1 self) = on_visit k1 (on_visit k2 self).
Proof.
  rewrite (on_visit_add_counts k2 (on_visit k1 self)), (on_visit_add_counts k1 self).
  rewrite (on_visit_add_counts k1 (on_visit k2 self)), (on_visit_add_counts k2 self).
  rewrite !add_counts_assoc. f_equal. apply add_counts_comm.
Qed.

Lemma fold_on_visit_permutation (kinds kinds' : list cst.NodeKind) :
  Permutation kinds kinds' ->
  forall self,
    fold_left (fun acc k => on_visit k acc) kinds self
    = fold_left (fun acc k => on_visit k acc) kinds' self.
Proof.
  induction 1 as [|k l l' _ IH|k1 k2 l|l l' l'' _ IH1 _ IH2]; intros self;
    cbn [fold_left].
  - reflexivity.
  - apply IH.
  - now rewrite on_visit_commute.
  - now rewrite IH1.
Qed.

(** X3. The annotation counts do not depend on the order of the trees. *)
Theorem count_annotations_permutation (paths paths' : list cst.CSTNode) (self : t) :
  Permutation paths paths' ->
  _count_annotations paths self = _count_annotations paths' self.
Proof.
  intros Hperm. rewrite !count_annotations_as_fold.
  apply fold_on_visit_permutation. unfold kinds_of.
  now apply Permutation_flat_map.
Qed.

Lemma count_annotations_permutation_witness :
  _count_annotations [a_py; b_py] init = _count_annotations [b_py; a_py] init.
Proof.
  apply (count_annotations_permutation [a_py; b_py] [b_py; a_py] init).
  apply perm_swap.
Defined.

End AnnotationBatches.

(** ** Suppression counts of a batch *)

Section FixmeBatches.

Import FixmeCountCollector.

Variable decimal : N -> bool.

Lemma count_fixmes_as_fold (paths : list cst.CSTNode) (self : t) (h : heap) :
  _count_fixmes decimal paths self h
  = fold_left (fun r k => on_visit decimal self k r) (kinds_of paths) (Ok h).
Proof.
  unfold _count_fixmes, _count, kinds_of.
  apply (fold_left_flat_map (fun r k => on_visit decimal self k r) cst.preorder
           (fun c path => cst.visit (on_visit decimal self) path c)).
  apply Forall_forall. intros tree _ s. apply visit_preorder.
Qed.

Lemma default_factory_incremented_all (codes : list (list N)) :
  forall d, default_factory d = true ->
            default_factory (fold_left incremented codes d) = true.
Proof.
  induction codes as [|g codes IH]; intros d Hd; cbn [fold_left]; [exact Hd|].
  now apply IH.
Qed.

Lemma fold_on_visit_defaultdict (fc : option loc) (kinds : list cst.NodeKind) :
  forall (h : heap) (d : PyDict),
    h !! fixme_counts (init fc) = Some d ->
    default_factory d = true ->
    fold_left (fun r k => on_visit decimal (init fc) k r) kinds (Ok h)
    = Ok (<[fixme_counts (init fc) :=
             fold_left incremented (comment_codes decimal kinds) d]> h).
Proof.
  induction kinds as [|k kinds IH]; intros h d Hd Hdef; cbn [fold_left].
  - cbn. now rewrite insert_id.
  - destruct k as [node| | |value|];
      cbn [on_visit mbind result_bind comment_codes flat_map app];
      fold (comment_codes decimal kinds); try (now apply IH).
    unfold visit_Comment. cbn [fixme_regex init].
    destruct (re_match decimal the_fixme_regex value) as [groups|]; [|now apply IH].
    rewrite (increment_defaultdict (init fc) (group1 groups) h d Hd Hdef).
    rewrite (IH _ (incremented d (group1 groups)));
      [|apply lookup_insert_eq|reflexivity].
    cbn [app fold_left]. now rewrite insert_insert_eq.
Qed.

Lemma occurrences_cons (code g : list N) (codes : list (list N)) :
  occurrences code (g :: codes)
  = ((if str_eqb code g then 1 else 0) + occurrences code codes)%nat.
Proof. unfold occurrences. cbn [List.filter]. now destruct (str_eqb code g). Qed.

Lemma counter_incremented_all (codes : list (list N)) :
  forall (d : PyDict) (code : list N),
    counter (fold_left incremented codes d) code
    = counter d code + Z.of_nat (occurrences code codes).
Proof.
  induction codes as [|g codes IH]; intros d code; cbn [fold_left].
  - unfold occurrences. simpl. lia.
  - rewrite IH, occurrences_cons.
    destruct (str_eqb_spec code g) as [->|Hne].
    + rewrite counter_incremented_eq. lia.
    + rewrite counter_incremented_ne by exact Hne. lia.
Qed.

Lemma in_comment_codes (kinds : list cst.NodeKind) (code : list N) :
  In code (comment_codes decimal kinds) <->
  exists value,
    In (cst.KComment value) kinds /\ begins_with_marker decimal value code.
Proof.
  unfold comment_codes. rewrite in_flat_map. split.
  - intros (k & Hk & Hin). destruct k as [node| | |value|]; try now destruct Hin.
    destruct (re_match decimal the_fixme_regex value) as [groups|] eqn:E;
      [|now destruct Hin].
    destruct Hin as [<-|[]]. exists value. split; [exact Hk|].
    apply re_match_fixme_Some in E as (g & -> & Hg). exact Hg.
  - intros (value & Hin & Hg). exists (cst.KComment value). split; [exact Hin|].
    assert (re_match decimal the_fixme_regex value = Some [code]) as ->
      by (apply re_match_fixme_Some; eauto).
    now left.
Qed.

(** X4. On a collector whose map is a [defaultdict(int)], a batch never
    raises, changes no object but the collector's map, and adds to the
    counter of every code the number of comments of the batch that begin
    with a marker of that code; the codes counted are those of such
    comments and no others. *)
Theorem count_fixmes_tallies (fc : option loc) (paths : list cst.CSTNode)
    (h : heap) (d : PyDict) :
  let self := init fc in
  let codes := comment_codes decimal (kinds_of paths) in
  h !! fixme_counts self = Some d ->
  default_factory d = true ->
  (exists d',
     _count_fixmes decimal paths self h = Ok (<[fixme_counts self := d']> h) /\
     default_factory d' = true /\
     forall code, counter d' code = counter d code + Z.of_nat (occurrences code codes)) /\
  (forall code,
     In code codes <->
     exists value,
       In (cst.KComment value) (kinds_of paths)
       /\ begins_with_marker decimal value code).
Proof.
  intros self codes Hd Hdef. subst self codes. split.
  - exists (fold_left incremented (comment_codes decimal (kinds_of paths)) d).
    repeat apply conj.
    + rewrite count_fixmes_as_fold. now apply fold_on_visit_defaultdict.
    + now apply default_factory_incremented_all.
    + intros code. apply counter_incremented_all.
  - intros code. apply in_comment_codes.
Qed.

Lemma keys_items_set (key : list N) (value : Z) (its : list (list N * Z)) :
  (In key (map fst its) -> map fst (items_set key value its) = map fst its) /\
  (~ In key (map fst its) -> map fst (items_set key value its) = map fst its ++ [key]).
Proof.
  induction its as [|[k v] its [IHin IHout]]; cbn [items_set map fst In app].
  - split; [intros [] | reflexivity].
  - destruct (str_eqb_spec key k) as [->|Hne]; cbn [map fst].
    + split; [reflexivity | intros Hno; exfalso; apply Hno; now left].
    + split.
      * intros [E|Hin]; [congruence|]. now rewrite IHin.
      * intros Hno. rewrite IHout; [reflexivity|]. intros Hin. apply Hno. now right.
Qed.

Lemma keys_incremented (d : PyDict) (g : list N) :
  (g ∈ keys d -> keys (incremented d g) = keys d) /\
  (g ∉ keys d -> keys (incremented d g) = keys d ++ [g]).
Proof.
  unfold keys, incremented. cbn [items]. rewrite list_elem_of_In.
  apply keys_items_set.
Qed.

Lemma keys_incremented_all (codes : list (list N)) :
  forall d : PyDict,
    NoDup (keys d) ->
    exists new,
      keys (fold_left incremented codes d) = keys d ++ new /\
      NoDup (keys d ++ new) /\
      (forall k, k ∈ new -> k ∈ codes).
Proof.
  induction codes as [|g codes IH]; intros d Hnd; cbn [fold_left].
  - exists []. rewrite app_nil_r. repeat split; [exact Hnd|].
    intros k Hk. now apply elem_of_nil in Hk.
  - destruct (decide (g ∈ keys d)) as [Hin|Hout].
    + destruct (keys_incremented d g) as [Hk _]. specialize (Hk Hin).
      destruct (IH (incremented d g)) as (new & E & Hnd' & Hsub);
        [now rewrite Hk|].
      rewrite Hk in E, Hnd'. exists new. repeat split; [exact E | exact Hnd'|].
      intros k Hkn. apply elem_of_cons. right. now apply Hsub.
    + destruct (keys_incremented d g) as [_ Hk]. specialize (Hk Hout).
      destruct (IH (incremented d g)) as (new & E & Hnd' & Hsub).
      { rewrite Hk. apply NoDup_app. repeat split.
        - exact Hnd.
        - intros x Hx Hxg. apply list_elem_of_singleton in Hxg. now subst x.
        - apply NoDup_singleton. }
      rewrite Hk in E, Hnd'. rewrite <- app_assoc in E, Hnd'.
      exists ([g] ++ new). repeat split; [exact E | exact Hnd'|].
      intros k Hkn. apply elem_of_app in Hkn as [Hkg|Hkn].
      * apply list_elem_of_singleton in Hkg. subst k. apply elem_of_cons. now left.
      * apply elem_of_cons. right. now apply Hsub.
Qed.

(** X5. The keys of the collector's map stay pairwise distinct and, when they
    were digit strings before a batch, are digit strings after it, the
    digits being those of the pattern; the keys already there keep their
    places, and the new ones, all of them codes of comments of the batch,
    come after them. *)
Theorem count_fixmes_keys (fc : option loc) (paths : list cst.CSTNode)
    (h : heap) (d : PyDict) :
  let self := init fc in
  h !! fixme_counts self = Some d ->
  default_factory d = true ->
  NoDup (keys d) ->
  Forall (fun k => all_digits decimal k = true) (keys d) ->
  exists d' new,
    _count_fixmes decimal paths self h = Ok (<[fixme_counts self := d']> h) /\
    keys d' = keys d ++ new /\
    NoDup (keys d') /\
    Forall (fun k => all_digits decimal k = true) (keys d') /\
    (forall k, k ∈ new -> k ∈ comment_codes decimal (kinds_of paths)).
Proof.
  intros self Hd Hdef Hnd Hdig. subst self.
  destruct (keys_incremented_all (comment_codes decimal (kinds_of paths)) d Hnd)
    as (new & E & Hnd' & Hsub).
  exists (fold_left incremented (comment_codes decimal (kinds_of paths)) d), new.
  repeat apply conj.
  - rewrite count_fixmes_as_fold. now apply fold_on_visit_defaultdict.
  - exact E.
  - now rewrite E.
  - rewrite E. apply Forall_app. split; [exact Hdig|].
    apply Forall_forall. intros k Hk. apply Hsub, list_elem_of_In in Hk.
    apply in_comment_codes in Hk as (value & _ & Hg & _). exact Hg.
  - exact Hsub.
Qed.

(** X6. A collector built on a plain [dict]: a comment with a marker whose
    code the map does not hold raises [KeyError] for that code; one whose
    code it holds adds 1 to it, and the map stays a plain [dict]. *)
Theorem visit_Comment_plain_dict (fc : option loc) (h : heap) (d : PyDict)
    (value g : list N) :
  let self := init fc in
  h !! fixme_counts self = Some d ->
  default_factory d = false ->
  begins_with_marker decimal value g ->
  (items_get g (items d) = None ->
     visit_Comment decimal self value h = Raise (KeyError g)) /\
  (forall v, items_get g (items d) = Some v ->
     visit_Comment decimal self value h
     = Ok (<[fixme_counts self :=
              {| default_factory := false; items := items_set g (v + 1) (items d) |}]> h)).
Proof.
  intros self Hd Hdef Hg. subst self. unfold visit_Comment.
  assert (re_match decimal (fixme_regex (init fc)) value = Some [g]) as ->
    by (apply re_match_fixme_Some; eauto).
  cbn [group1 nth]. unfold increment, getitem. rewrite Hd, Hdef. split.
  - intros ->. reflexivity.
  - intros v ->. cbn [mbind result_bind]. unfold setitem. now rewrite Hdef.
Qed.

(** X7. A comment counted by one collector shows in the map of another
    collector exactly when the two were built on the same map object: two
    collectors built without an argument share the one default map, two
    built on different maps do not touch each other's. *)
Theorem visit_Comment_other_collector (fc1 fc2 : option loc) (h : heap) (d : PyDict)
    (value g : list N) :
  let c1 := init fc1 in
  let c2 := init fc2 in
  h !! fixme_counts c1 = Some d ->
  default_factory d = true ->
  begins_with_marker decimal value g ->
  exists h1,
    visit_Comment decimal c1 value h = Ok h1 /\
    (fixme_counts c1 = fixme_counts c2 ->
       h1 !! fixme_counts c2 = Some (incremented d g) /\
       counter (incremented d g) g = counter d g + 1) /\
    (fixme_counts c1 <> fixme_counts c2 ->
       h1 !! fixme_counts c2 = h !! fixme_counts c2) /\
    (fc1 = None -> fc2 = None -> fixme_counts c1 = fixme_counts c2).
Proof.
  intros c1 c2 Hd Hdef Hg. subst c1 c2.
  exists (<[fixme_counts (init fc1) := incremented d g]> h). repeat apply conj.
  - now apply visit_Comment_match.
  - intros Hsame. split.
    + rewrite <- Hsame. apply lookup_insert_eq.
    + apply counter_incremented_eq.
  - intros Hne. now apply lookup_insert_ne.
  - intros -> ->. reflexivity.
Qed.

End FixmeBatches.

Lemma count_fixmes_tallies_witness :
  exists d',
    _count_fixmes decimal_14 [four_comments; arabic_file] (FixmeCountCollector.init None)
      FixmeCountCollector.module_heap
    = Ok (<[FixmeCountCollector.fixme_counts (FixmeCountCollector.init None) := d']>
            FixmeCountCollector.module_heap) /\
    default_factory d' = true /\
    forall code,
      counter d' code
      = counter {| default_factory := true; items := [] |} code
        + Z.of_nat (occurrences code
                      (comment_codes decimal_14 (kinds_of [four_comments; arabic_file]))).
Proof.
  apply (count_fixmes_tallies decimal_14 None [four_comments; arabic_file]
           FixmeCountCollector.module_heap
           {| default_factory := true; items := [] |});
    reflexivity.
Defined.

Lemma count_fixmes_keys_witness :
  exists d' new,
    _count_fixmes decimal_14 [four_comments; arabic_file] (FixmeCountCollector.init None)
      FixmeCountCollector.module_heap
    = Ok (<[FixmeCountCollector.fixme_counts (FixmeCountCollector.init None) := d']>
            FixmeCountCollector.module_heap) /\
    keys d' = keys {| default_factory := true; items := [] |} ++ new /\
    NoDup (keys d') /\
    Forall (fun k => all_digits decimal_14 k = true) (keys d') /\
    (forall k, k ∈ new ->
               k ∈ comment_codes decimal_14 (kinds_of [four_comments; arabic_file])).
Proof.
  apply (count_fixmes_keys decimal_14 None [four_comments; arabic_file]
           FixmeCountCollector.module_heap
           {| default_factory := true; items := [] |}).
  - reflexivity.
  - reflexivity.
  - apply NoDup_nil_2.
  - apply Forall_nil_2.
Defined.

Lemma visit_Comment_plain_dict_witness :
  FixmeCountCollector.visit_Comment decimal_14
    (FixmeCountCollector.init (Some 5%positive)) (str "# pyre-fixme[7]: text")
    {[ 5%positive := {| default_factory := false; items := [(str "35", 2)] |} ]}
  = Raise (KeyError (str "7")).
Proof.
  apply (visit_Comment_plain_dict decimal_14 (Some 5%positive)
           {[ 5%positive := {| default_factory := false; items := [(str "35", 2)] |} ]}
           {| default_factory := false; items := [(str "35", 2)] |}
           (str "# pyre-fixme[7]: text") (str "7")).
  - reflexivity.
  - reflexivity.
  - apply begins_with_marker_computed. reflexivity.
  - reflexivity.
Defined.

Lemma visit_Comment_other_collector_witness :
  exists h1,
    FixmeCountCollector.visit_Comment decimal_14 (FixmeCountCollector.init None)
      (str "# pyre-fixme[7]:") FixmeCountCollector.module_heap
    = Ok h1 /\
    h1 !! FixmeCountCollector.fixme_counts (FixmeCountCollector.init None)
    = Some (incremented {| default_factory := true; items := [] |} (str "7")).
Proof.
  destruct (visit_Comment_other_collector decimal_14 None None
              FixmeCountCollector.module_heap
              {| default_factory := true; items := [] |}
              (str "# pyre-fixme[7]:") (str "7")
              eq_refl eq_refl
              (begins_with_marker_computed decimal_14
                 (str "# pyre-fixme[7]:") (str "7") eq_refl))
    as (h1 & E & Hsame & _).
  exists h1. split; [exact E|]. now apply Hsame.
Defined.

(** The codes of a batch with the table of Unicode 14.0: the three codes of
    the four comments, then the Arabic-Indic three. *)
Example comment_codes_arabic :
  comment_codes decimal_14 (kinds_of [four_comments; arabic_file])
  = [str "7"; str "7"; str "35"; arabic_three].
Proof. reflexivity. Qed.

(** ** Discovering and parsing files *)

(** X8. [_get_paths] keeps, in the order of the search, exactly the files
    found whose own name starts neither with two underscores nor with a dot;
    the names of the directories above a file play no part. *)
Theorem get_paths_selects (w : World) (target_directory : Path.t) :
  (forall path,
     path ∈ _get_paths w target_directory <->
     path ∈ glob_py w target_directory /\
     startswith (Path.name path) "__" = false /\
     startswith (Path.name path) "." = false) /\
  _get_paths w target_directory `sublist_of` glob_py w target_directory /\
  (forall root above file_name,
     {| Path.root := root; Path.parts := above ++ [file_name] |}
       ∈ glob_py w target_directory ->
     startswith file_name "__" = false ->
     startswith file_name "." = false ->
     {| Path.root := root; Path.parts := above ++ [file_name] |}
       ∈ _get_paths w target_directory).
Proof.
  assert (Hiff : forall path,
     path ∈ _get_paths w target_directory <->
     path ∈ glob_py w target_directory /\
     startswith (Path.name path) "__" = false /\
     startswith (Path.name path) "." = false).
  { intros path. unfold _get_paths. rewrite list_elem_of_filter.
    rewrite andb_true_iff, !negb_true_iff. tauto. }
  repeat apply conj.
  - exact Hiff.
  - apply sublist_filter.
  - intros root above file_name Hin H1 H2. apply Hiff.
    unfold Path.name. cbn [Path.parts]. rewrite List.last_last. auto.
Qed.

Section Gathering.

Context {A T : Type} (f : A -> result (list T)).

Lemma gather_app (l1 l2 : list A) :
  gather f (l1 ++ l2) = (xs ← gather f l1; ys ← gather f l2; Ok (xs ++ ys)).
Proof.
  induction l1 as [|a l1 IH]; cbn [gather app mbind result_bind].
  - now destruct (gather f l2).
  - destruct (f a) as [g|e]; cbn [mbind result_bind]; [|reflexivity].
    rewrite IH. destruct (gather f l1) as [xs|e]; cbn [mbind result_bind]; [|reflexivity].
    destruct (gather f l2) as [ys|e]; cbn [mbind result_bind]; [|reflexivity].
    now rewrite app_assoc.
Qed.

Lemma gather_Ok (l : list A) (trees : list T) :
  gather f l = Ok trees <->
  exists groups, Forall2 (fun a g => f a = Ok g) l groups /\ trees = concat groups.
Proof.
  revert trees. induction l as [|a l IH]; intros trees; cbn [gather mbind result_bind].
  - split.
    + intros [= <-]. exists []. split; [constructor | reflexivity].
    + intros (groups & HF & ->). apply Forall2_nil_inv_l in HF. now subst groups.
  - split.
    + destruct (f a) as [g|e] eqn:Ea; cbn [mbind result_bind]; [|discriminate].
      destruct (gather f l) as [gs|e] eqn:El; cbn [mbind result_bind]; [|discriminate].
      intros [= <-]. destruct (proj1 (IH gs) eq_refl) as (groups & HF & ->).
      exists (g :: groups). split; [now constructor | reflexivity].
    + intros (groups & HF & ->). inversion HF as [|a' g l' groups' Ha HF' E1 E2]; subst.
      rewrite Ha. cbn [mbind result_bind].
      assert (gather f l = Ok (concat groups')) as -> by (apply IH; eauto).
      reflexivity.
Qed.

Lemma gather_first_error (good rest : list A) (bad : A) (e : exn) :
  Forall (fun a => exists g, f a = Ok g) good ->
  f bad = Raise e ->
  gather f (good ++ bad :: rest) = Raise e.
Proof.
  intros Hgood Hbad. induction Hgood as [|a good [g Ha] _ IH];
    cbn [gather app mbind result_bind].
  - now rewrite Hbad.
  - rewrite Ha. cbn [mbind result_bind]. now rewrite IH.
Qed.

(** A loop that appends what [f] reads to an accumulator is [gather]. *)
Lemma fold_left_gather (step : result (list T) -> A -> result (list T)) :
  (forall acc a, step acc a = (xs ← acc; ys ← f a; Ok (xs ++ ys))) ->
  forall (l : list A) (acc : result (list T)),
    fold_left step l acc = (xs ← acc; ys ← gather f l; Ok (xs ++ ys)).
Proof.
  intros Hstep. induction l as [|a l IH]; intros acc; cbn [fold_left gather].
  - destruct acc as [xs|e]; cbn [mbind result_bind]; [|reflexivity].
    now rewrite app_nil_r.
  - rewrite IH, Hstep. destruct acc as [xs|e]; cbn [mbind result_bind]; [|reflexivity].
    destruct (f a) as [g|e]; cbn [mbind result_bind]; [|reflexivity].
    destruct (gather f l) as [gs|e]; cbn [mbind result_bind]; [|reflexivity].
    now rewrite app_assoc.
Qed.

End Gathering.

Lemma parse_directory_gather (w : World) (directory : Path.t) :
  _parse_directory w directory = gather (parse_one w) (_get_paths w directory).
Proof.
  unfold _parse_directory.
  rewrite (fold_left_gather (parse_one w)).
  - cbn [mbind result_bind]. now destruct (gather (parse_one w) (_get_paths w directory)).
  - intros acc file. unfold parse_one.
    destruct acc as [xs|e]; cbn [mbind result_bind]; [|reflexivity].
    now destruct (_parse_file w file).
Qed.

Lemma parse_paths_gather (w : World) (paths : list Path.t) :
  _parse_paths w paths = gather (parse_path w) paths.
Proof.
  unfold _parse_paths.
  rewrite (fold_left_gather (parse_path w)).
  - cbn [mbind result_bind]. now destruct (gather (parse_path w) paths).
  - intros acc path. unfold parse_path.
    destruct acc as [xs|e]; cbn [mbind result_bind]; [|reflexivity].
    destruct (is_dir w path); [reflexivity|].
    now destruct (_parse_file w path).
Qed.

Lemma parse_one_Ok (w : World) (file : Path.t) (g : list cst.CSTNode) :
  parse_one w file = Ok g <-> exists tree, _parse_file w file = Ok tree /\ g = [tree].
Proof.
  unfold parse_one. destruct (_parse_file w file) as [t|e]; cbn [mbind result_bind].
  - split; [intros [= <-]; eauto | intros (tree & [= <-] & ->); reflexivity].
  - split; [discriminate | intros (tree & E & _); discriminate].
Qed.

(** X9. [_parse_directory] returns trees exactly when every file it selects
    is read and parsed, and then returns one tree per selected file, the
    tree of that file, in the order of the files. *)
Theorem parse_directory_all_or_nothing (w : World) (directory : Path.t)
    (trees : list cst.CSTNode) :
  _parse_directory w directory = Ok trees <->
  Forall2 (fun file tree => _parse_file w file = Ok tree) (_get_paths w directory) trees.
Proof.
  rewrite parse_directory_gather, gather_Ok.
  generalize (_get_paths w directory) as files. intros files. split.
  - intros (groups & HF & ->). induction HF as [|file g files groups Hg _ IH];
      cbn [concat]; [constructor|].
    apply parse_one_Ok in Hg as (tree & Ht & ->). now constructor.
  - intros HF. exists (map (fun tree => [tree]) trees). split.
    + induction HF as [|file tree files trees Ht _ IH]; cbn [map]; constructor;
        [|exact IH].
      apply parse_one_Ok. eauto.
    + clear HF. induction trees as [|tree trees IH]; cbn [map concat app];
        [reflexivity | now rewrite <- IH].
Qed.

(** X10. When a selected file cannot be read or parsed and all the files
    before it can, [_parse_directory] raises the exception of that file, and
    no tree is returned. *)
Theorem parse_directory_first_error (w : World) (directory : Path.t)
    (good rest : list Path.t) (bad : Path.t) (e : exn) :
  _get_paths w directory = good ++ bad :: rest ->
  Forall (fun file => exists tree, _parse_file w file = Ok tree) good ->
  _parse_file w bad = Raise e ->
  _parse_directory w directory = Raise e.
Proof.
  intros Hfiles Hgood Hbad. rewrite parse_directory_gather, Hfiles.
  apply gather_first_error.
  - eapply Forall_impl; [exact Hgood|]. intros file [tree Ht].
    exists [tree]. apply parse_one_Ok. eauto.
  - unfold parse_one. now rewrite Hbad.
Qed.

(** X11. [_parse_paths] returns trees exactly when every path gives its
    trees, a directory those of the files selected in it and a file its own
    one tree, and then returns them joined in the order of the paths. *)
Theorem parse_paths_groups (w : World) (paths : list Path.t) (trees : list cst.CSTNode) :
  _parse_paths w paths = Ok trees <->
  exists groups,
    Forall2 (fun path group =>
               if is_dir w path then _parse_directory w path = Ok group
               else exists tree, _parse_file w path = Ok tree /\ group = [tree])
            paths groups /\
    trees = concat groups.
Proof.
  rewrite parse_paths_gather, gather_Ok.
  assert (Hone : forall path group,
            parse_path w path = Ok group <->
            (if is_dir w path then _parse_directory w path = Ok group
             else exists tree, _parse_file w path = Ok tree /\ group = [tree])).
  { intros path group. unfold parse_path.
    destruct (is_dir w path); [reflexivity | apply parse_one_Ok]. }
  split; intros (groups & HF & ->); exists groups; (split; [|reflexivity]);
    (eapply Forall2_impl; [exact HF|]); intros path group; apply Hone.
Qed.

(** X12. Parsing a sequence of paths in two parts: the trees of the first
    part, then those of the second; a failure in the first part is the
    failure of the whole, and so is a failure in the second part when the
    first succeeds. Parsing no path gives no tree. *)
Theorem parse_paths_app (w : World) (paths1 paths2 : list Path.t) :
  _parse_paths w (paths1 ++ paths2)
  = (trees1 ← _parse_paths w paths1;
     trees2 ← _parse_paths w paths2;
     Ok (trees1 ++ trees2)) /\
  _parse_paths w [] = Ok [].
Proof.
  split; [|reflexivity]. rewrite !parse_paths_gather. apply gather_app.
Qed.

Lemma parse_directory_first_error_witness :
  _parse_directory unreadable_file_world (Path.of_string "/repo") = Raise ReadError.
Proof.
  apply (parse_directory_first_error unreadable_file_world (Path.of_string "/repo")
           [Path.of_string "/repo/a.py"] [Path.of_string "/repo/b.py"]
           (Path.of_string "/repo/c.py") ReadError).
  - reflexivity.
  - constructor; [|constructor]. exists a_py. reflexivity.
  - reflexivity.
Defined.

(** ** Filters of the path resolver *)

Lemma joinpath_absolute (base : Path.t) (s : string) :
  Path.joinpath base (String "/" s) = Path.of_string (String "/" s).
Proof.
  unfold Path.joinpath, Path.of_string, Path.splitroot.
  destruct (String.length (String "/" s)
            - String.length (lstrip_slash (String "/" s)) =? 2)%nat; reflexivity.
Qed.

Lemma joinpath_relative (base : Path.t) (path : string) :
  startswith path "/" = false ->
  Path.joinpath base path
  = {| Path.root := Path.root base;
       Path.parts := Path.parts base
                     ++ filter (fun x => Path.keep_part x = true) (split_slash path) |}.
Proof.
  intros Hrel. unfold Path.joinpath, Path.of_string, Path.splitroot.
  destruct path as [|c path]; [reflexivity|].
  destruct (Ascii.eqb_spec c "/") as [->|Hc].
  - exfalso. revert Hrel. unfold startswith. cbn [strip_prefix].
    rewrite Ascii.eqb_refl. rewrite bool_decide_eq_false. intros Hno. apply Hno. eauto.
  - destruct c as [[] [] [] [] [] [] [] []]; try reflexivity. now destruct Hc.
Qed.

Lemma keep_part_true (x : string) :
  Path.keep_part x = true <-> x <> EmptyString /\ x <> ".".
Proof.
  unfold Path.keep_part. rewrite andb_true_iff, !negb_true_iff.
  now rewrite !String.eqb_neq.
Qed.

(** X13. A filter that starts with a slash resolves to itself, whatever the
    base directory; any other filter resolves below the base directory, to
    the components of the base followed by those of the filter, which are
    the pieces of the filter between its slashes, in order, without the
    empty ones and the single dots; the empty filter and the filter of a
    single dot resolve to the base directory itself; two dots are kept as a
    component. *)
Theorem find_paths_filter_kinds (cwd : Path.t) (local_configuration : string) :
  let base := pyre_configuration_directory cwd local_configuration in
  (forall s,
     _find_paths cwd local_configuration [String "/" s]
     = [Path.of_string (String "/" s)]) /\
  (forall path, startswith path "/" = false ->
     _find_paths cwd local_configuration [path]
     = [{| Path.root := Path.root base;
           Path.parts :=
             Path.parts base
             ++ filter (fun x => x <> EmptyString /\ x <> ".") (split_slash path) |}]) /\
  _find_paths cwd local_configuration [EmptyString] = [base] /\
  _find_paths cwd local_configuration ["."] = [base] /\
  _find_paths cwd local_configuration ["../x"]
  = [{| Path.root := Path.root base; Path.parts := Path.parts base ++ [".."; "x"] |}].
Proof.
  intros base. unfold _find_paths. fold base. cbn [map]. repeat apply conj.
  - intros s. now rewrite joinpath_absolute.
  - intros path Hrel. rewrite (joinpath_relative base path Hrel).
    do 3 f_equal. apply list_filter_iff. intros x. apply keep_part_true.
  - rewrite joinpath_relative by reflexivity. cbn. rewrite app_nil_r. now destruct base.
  - rewrite joinpath_relative by reflexivity. cbn. rewrite app_nil_r. now destruct base.
  - rewrite joinpath_relative by reflexivity. reflexivity.
Qed.

(** ** The command as a whole *)

Section Running.

Import FixmeCountCollector.

Variable decimal : N -> bool.

Lemma run_defaultdict (w : World) (self : Statistics) (h : heap) (d : PyDict)
    (trees : list cst.CSTNode) :
  h !! default_fixme_counts = Some d ->
  default_factory d = true ->
  prepare w = Ok tt ->
  _parse_paths w (_find_paths (cwd w) (_local_configuration self) (_filter_paths self))
  = Ok trees ->
  let d' := fold_left incremented (comment_codes decimal (kinds_of trees)) d in
  let h1 := <[default_fixme_counts := d']> h in
  _run decimal w self h
  = Ok (json_dumps
          [ (str "annotations",
             AnnotationCountCollector.build_json
               (_count_annotations trees AnnotationCountCollector.init));
            (str "fixmes", items d') ],
        <[fresh (dom h1) := {| default_factory := false; items := items d' |}]> h1).
Proof.
  intros Hd Hdef Hprep Hparse d' h1.
  unfold _run. rewrite Hprep. cbn [mbind result_bind]. rewrite Hparse.
  cbn [mbind result_bind]. rewrite count_fixmes_as_fold.
  rewrite (fold_on_visit_defaultdict decimal None (kinds_of trees) h d Hd Hdef).
  cbn [mbind result_bind init default fixme_counts]. fold d' h1.
  unfold build_json.
  assert (h1 !! fixme_counts (init None) = Some d') as -> by apply lookup_insert_eq.
  unfold alloc. cbn [mbind result_bind]. now rewrite lookup_insert_eq.
Qed.

(** X14. When preparation and parsing succeed and the default map is in the
    heap, [_run] writes the report made of the annotation counts of the
    parsed trees, counted from zero, and of the default map as the run
    leaves it: what the map held before the run plus, for every code, the
    number of comments of the trees with a marker of that code. The map
    reported is a new object. *)
Theorem run_report (w : World) (self : Statistics) (h : heap) (d : PyDict)
    (trees : list cst.CSTNode) :
  h !! default_fixme_counts = Some d ->
  default_factory d = true ->
  prepare w = Ok tt ->
  _parse_paths w (_find_paths (cwd w) (_local_configuration self) (_filter_paths self))
  = Ok trees ->
  exists d' l,
    _run decimal w self h
    = Ok (json_dumps
            [ (str "annotations",
               AnnotationCountCollector.build_json
                 (_count_annotations trees AnnotationCountCollector.init));
              (str "fixmes", items d') ],
          <[l := {| default_factory := false; items := items d' |}]>
            (<[default_fixme_counts := d']> h)) /\
    h !! l = None /\
    forall code,
      counter d' code
      = counter d code
        + Z.of_nat (occurrences code (comment_codes decimal (kinds_of trees))).
Proof.
  intros Hd Hdef Hprep Hparse.
  set (d' := fold_left incremented (comment_codes decimal (kinds_of trees)) d).
  set (h1 := <[default_fixme_counts := d']> h).
  exists d', (fresh (dom h1)). repeat apply conj.
  - now apply run_defaultdict.
  - apply not_elem_of_dom. pose proof (is_fresh (dom h1)) as Hfresh.
    intros Hin. apply Hfresh. subst h1.
    eapply elem_of_weaken; [exact Hin | apply dom_insert_subseteq].
  - intros code. apply counter_incremented_all.
Qed.

(** X15. With the default map in the heap, [_run] writes a report exactly
    when the preparation succeeds and every path is parsed; a failure of
    either is raised by [_run], the preparation's first. *)
Theorem run_succeeds_iff (w : World) (self : Statistics) (h : heap) (d : PyDict) :
  h !! default_fixme_counts = Some d ->
  default_factory d = true ->
  ((exists out h', _run decimal w self h = Ok (out, h')) <->
   prepare w = Ok tt /\
   exists trees,
     _parse_paths w (_find_paths (cwd w) (_local_configuration self) (_filter_paths self))
     = Ok trees) /\
  (forall e, prepare w = Raise e -> _run decimal w self h = Raise e) /\
  (forall e,
     prepare w = Ok tt ->
     _parse_paths w (_find_paths (cwd w) (_local_configuration self) (_filter_paths self))
     = Raise e ->
     _run decimal w self h = Raise e).
Proof.
  intros Hd Hdef. split; [|split].
  - split.
    + intros (out & h' & Hrun). unfold _run in Hrun.
      destruct (prepare w) as [[]|e]; cbn [mbind result_bind] in Hrun; [|discriminate].
      split; [reflexivity|].
      destruct (_parse_paths w _) as [trees|e]; [eauto | discriminate].
    + intros (Hprep & trees & Hparse).
      rewrite (run_defaultdict w self h d trees Hd Hdef Hprep Hparse). eauto.
  - intros e He. unfold _run. now rewrite He.
  - intros e Hprep He. unfold _run. rewrite Hprep. cbn [mbind result_bind].
    now rewrite He.
Qed.

End Running.

Lemma run_report_witness :
  exists d' l,
    _run decimal_14 one_fixme_world one_fixme_command FixmeCountCollector.module_heap
    = Ok (json_dumps
            [ (str "annotations",
               AnnotationCountCollector.build_json
                 (_count_annotations [one_fixme_file] AnnotationCountCollector.init));
              (str "fixmes", items d') ],
          <[l := {| default_factory := false; items := items d' |}]>
            (<[FixmeCountCollector.default_fixme_counts := d']>
               FixmeCountCollector.module_heap)) /\
    FixmeCountCollector.module_heap !! l = None /\
    forall code,
      counter d' code
      = counter {| default_factory := true; items := [] |} code
        + Z.of_nat (occurrences code
                      (comment_codes decimal_14 (kinds_of [one_fixme_file]))).
Proof.
  apply (run_report decimal_14 one_fixme_world one_fixme_command
           FixmeCountCollector.module_heap
           {| default_factory := true; items := [] |} [one_fixme_file]);
    reflexivity.
Defined.

Lemma run_succeeds_iff_witness :
  (exists out h',
     _run decimal_14 one_fixme_world one_fixme_command FixmeCountCollector.module_heap
     = Ok (out, h')) <->
  prepare one_fixme_world = Ok tt /\
  exists trees,
    _parse_paths one_fixme_world
      (_find_paths (cwd one_fixme_world) (_local_configuration one_fixme_command)
         (_filter_paths one_fixme_command))
    = Ok trees.
Proof.
  apply (run_succeeds_iff decimal_14 one_fixme_world one_fixme_command
           FixmeCountCollector.module_heap
           {| default_factory := true; items := [] |}); reflexivity.
Defined.

(** The report of a file whose comment carries the Arabic-Indic code, with
    the table of Unicode 14.0: the code is a key of the report. *)
Example run_arabic_report :
  exists h,
    _run decimal_14 arabic_world one_fixme_command FixmeCountCollector.module_heap
    = Ok (report_of_fixmes [(arabic_three, 1)], h).
Proof. eexists. vm_compute. reflexivity. Qed.

(** ** Batches without markers *)

(** X16. A batch none of whose comments begins with a marker leaves the heap
    as it is, whatever the heap holds: the collector's map is not read, so
    neither a plain [dict] nor a missing key can make the batch raise. *)
Theorem count_fixmes_without_markers (decimal : N -> bool) (fc : option positive)
    (paths : list cst.CSTNode) (h : gmap positive PyDict) :
  comment_codes decimal (kinds_of paths) = [] ->
  _count_fixmes decimal paths (FixmeCountCollector.init fc) h = Ok h.
Proof.
  rewrite count_fixmes_as_fold. generalize (kinds_of paths) as kinds.
  induction kinds as [|k kinds IH]; intros Hnone; cbn [fold_left]; [reflexivity|].
  cbn [comment_codes flat_map] in Hnone. fold (comment_codes decimal kinds) in Hnone.
  apply app_eq_nil in Hnone as [Hk Hnone].
  destruct k as [node| | |value|];
    cbn [FixmeCountCollector.on_visit mbind result_bind]; try (now apply IH).
  unfold FixmeCountCollector.visit_Comment.
  cbn [FixmeCountCollector.fixme_regex FixmeCountCollector.init].
  destruct (re_match decimal FixmeCountCollector.the_fixme_regex value);
    [discriminate|].
  now apply IH.
Qed.

Lemma count_fixmes_without_markers_witness :
  _count_fixmes decimal_14 [a_py] (FixmeCountCollector.init (Some 9%positive)) ∅
  = Ok ∅.
Proof.
  apply (count_fixmes_without_markers decimal_14 (Some 9%positive) [a_py] ∅).
  reflexivity.
Defined.

(** With the table of Unicode 14.0 the batch of the Arabic-Indic comment has
    a marker: on a plain [dict] that lacks the code it raises. *)
Example arabic_batch_raises :
  _count_fixmes decimal_14 [arabic_file] (FixmeCountCollector.init (Some 9%positive))
    {[ 9%positive := {| default_factory := false; items := [] |} ]}
  = Raise (KeyError arabic_three).
Proof. reflexivity. Qed.
